(** * Jumia scraper: a shallow embedding of [EnhancedJumiaScraper]

    The embedding follows [Jumia_scrapper2.py] function by function.

    - Python [str] is a list of characters.  Characters are 8-bit; the
      classification functions below (digit, whitespace, case) are the ASCII
      ones, and a character above 127 is carried along as an opaque symbol.
    - Python [float] is the kernel's binary64 [float].  Parsing a decimal
      ([float(s)]) and [round(x, 2)] are correctly rounded; they are computed
      on [spec_float] with the Standard Library's rounding functions.
    - Python [int] is [Z]; counters and lengths, which never go below zero,
      are [nat].
    - [self] is a record threaded through the methods; a method that can let
      an exception escape returns an [outcome].
    - The browser (Playwright) is the function [fetch]: for a category key
      and a page number it either raises or returns the product containers
      of that page.  Logging, sleeping and the three [datetime.now()] stamps
      of a record are left out.
    - The script at the end of the file is followed up to the call of
      [scrape_all_categories]; the builtin [int] that parses the answer to
      its prompt is a parameter. *)

From Stdlib Require Import ZArith Ascii String List Floats Lia Bool DecimalString.
From Stdlib Require DecimalNat DecimalFacts.
From stdpp Require Import base list strings gmap.
Import ListNotations.

#[local] Set Warnings "-inexact-float,-uniform-inheritance".
#[local] Open Scope Z_scope.

(** ** Python strings *)

Abbreviation str := (list ascii).

Coercion list_ascii_of_string : string >-> list.

Module PyStr.

(** [c.isspace()] on ASCII: tab, LF, VT, FF, CR, FS, GS, RS, US, space. *)
Definition is_space (c : ascii) : bool :=
  let n := N_of_ascii c in
  ((9 <=? n) && (n <=? 13) || (28 <=? n) && (n <=? 32))%N.

(** The regular expression class [\d] on ASCII. *)
Definition is_digit (c : ascii) : bool :=
  let n := N_of_ascii c in ((48 <=? n) && (n <=? 57))%N.

Definition upper_char (c : ascii) : ascii :=
  let n := N_of_ascii c in
  if ((97 <=? n) && (n <=? 122))%N then ascii_of_N (n - 32) else c.

Definition lower_char (c : ascii) : ascii :=
  let n := N_of_ascii c in
  if ((65 <=? n) && (n <=? 90))%N then ascii_of_N (n + 32) else c.

Definition upper (s : str) : str := map upper_char s.
Definition lower (s : str) : str := map lower_char s.

Fixpoint lstrip (s : str) : str :=
  match s with
  | c :: s' => if is_space c then lstrip s' else s
  | [] => []
  end.

Definition rstrip (s : str) : str := rev (lstrip (rev s)).

(** [s.strip()] *)
Definition strip (s : str) : str := rstrip (lstrip s).

(** [s.startswith(p)] *)
Fixpoint startswith (p s : str) : bool :=
  match p, s with
  | [], _ => true
  | a :: p', b :: s' => bool_decide (a = b) && startswith p' s'
  | _ :: _, [] => false
  end.

(** [sub in s] *)
Fixpoint contains (sub s : str) : bool :=
  startswith sub s ||
  match s with
  | [] => false
  | _ :: s' => contains sub s'
  end.

(** The scan of [s.replace(old, "")] for a non-empty [old]: [skip] counts
    the characters of a match that are still to be dropped. *)
Fixpoint remove_scan (old : str) (skip : nat) (s : str) : str :=
  match s with
  | [] => []
  | c :: s' =>
      match skip with
      | S k => remove_scan old k s'
      | O =>
          if startswith old s then remove_scan old (pred (length old)) s'
          else c :: remove_scan old 0 s'
      end
  end.

(** [s.replace(old, "")]: the occurrences of [old] are removed from left to
    right, without overlap; an empty [old] leaves [s] as it is. *)
Definition remove_all (old s : str) : str :=
  match old with
  | [] => s
  | _ => remove_scan old 0 s
  end.

(** [s.split()[0]] when [s.split()] is not empty. *)
Fixpoint take_word (s : str) : str :=
  match s with
  | c :: s' => if is_space c then [] else c :: take_word s'
  | [] => []
  end.

Definition first_word (s : str) : option str :=
  match lstrip s with
  | [] => None
  | w => Some (take_word w)
  end.

End PyStr.

(** ** Python floats *)

Module PyFloat.

(** The binary64 number nearest to [n / d] (ties to even), with sign [s]. *)
Definition nearest_ratio (s : bool) (n d : positive) : spec_float :=
  let '(q, e, l) := SFdiv_core_binary prec emax (Zpos n) 0 (Zpos d) 0 in
  binary_round_aux prec emax s q e l.

Definition ratio (s : bool) (n : Z) (d : positive) : spec_float :=
  match n with
  | Zpos p => nearest_ratio s p d
  | _ => S754_zero s
  end.

Definition of_ratio (s : bool) (n : Z) (d : positive) : float :=
  SF2Prim (ratio s n d).

(** [float(n)] for a Python int. *)
Definition of_int (n : Z) : float :=
  SF2Prim (binary_normalize prec emax n 0 false).

(** Value of a run of decimal digits, most significant first; [None] when a
    character is not a digit. *)
Fixpoint digits_value (acc : Z) (s : str) : option Z :=
  match s with
  | [] => Some acc
  | c :: s' =>
      if PyStr.is_digit c
      then digits_value (10 * acc + Z.of_N (N_of_ascii c - 48)) s'
      else None
  end.

Fixpoint split_point (s : str) : str * option str :=
  match s with
  | [] => ([], None)
  | c :: s' =>
      if bool_decide (c = "."%char) then ([], Some s')
      else let '(i, f) := split_point s' in (c :: i, f)
  end.

(** [float(s)] on the alphabet that [clean_price] leaves, digits and the
    point: digits with at most one point and at least one digit.  [None] is
    [ValueError].  A value beyond the largest float is [inf], not an error. *)
Definition of_str (s : str) : option float :=
  let '(i, f) := split_point s in
  let f := default [] f in
  match i ++ f with
  | [] => None
  | ds =>
      match digits_value 0 ds with
      | Some m => Some (of_ratio false m (Z.to_pos (10 ^ Z.of_nat (length f))))
      | None => None
      end
  end.

End PyFloat.

(** [round(x, 2)]: the decimal with two places nearest to the exact value of
    [x] (ties to even, as CPython's [dtoa] rounds), converted back to the
    nearest float.  Zeros, infinities and NaN round to themselves. *)
Definition round_half_even (num : Z) (den : positive) : Z :=
  let q := num / Zpos den in
  let r := num mod Zpos den in
  match 2 * r ?= Zpos den with
  | Lt => q
  | Gt => q + 1
  | Eq => if Z.even q then q else q + 1
  end.

Definition round2 (x : float) : float :=
  match Prim2SF x with
  | S754_finite s m e =>
      let n :=
        match e with
        | Zneg k => round_half_even (100 * Zpos m) (Pos.pow 2 k)
        | _ => 100 * Zpos m * 2 ^ e
        end in
      PyFloat.of_ratio s n 100
  | _ => x
  end.

(** [a / b] on Python ints: the float nearest to the quotient;
    [ZeroDivisionError] for [b = 0], [OverflowError] when the quotient is
    beyond the largest float. *)
Inductive exn := UnboundLocalError | ZeroDivisionError | OverflowError.

Inductive outcome (A : Type) :=
  | Returns (a : A)
  | Raises (e : exn).
Arguments Returns {A} a.
Arguments Raises {A} e.

Definition int_truediv (a b : Z) : outcome float :=
  match b with
  | Z0 => Raises ZeroDivisionError
  | _ =>
      match
        PyFloat.ratio (xorb (a <? 0) (b <? 0)) (Z.abs a) (Z.to_pos (Z.abs b))
      with
      | S754_infinity _ => Raises OverflowError
      | q => Returns (SF2Prim q)
      end
  end.

(** [min(a, b)] and [max(a, b)] of two numbers: the first argument is kept
    unless the second is strictly smaller (greater). *)
Definition py_min (a b : float) : float := if (b <? a)%float then b else a.
Definition py_max (a b : float) : float := if (a <? b)%float then b else a.

(** ** The data model *)

(** A product container ([article.prd]) as the scraper reads it: the inner
    text of [h3.name], [div.prc] and [div.old] when the element is there,
    the [href] attribute of [a.core] when the link is there and has one, and
    whether querying the container raises. *)
Record container := {
  name_elem : option str;
  price_elem : option str;
  old_price_elem : option str;
  link_elem : option (option str);
  detached : bool
}.

Inductive tier := Budget | Mid_range | Premium.

Record product := {
  product_id : str;
  product_name : str;
  brand : str;
  model : str;
  category : str;
  category_key : str;
  current_price : float;
  original_price : option float;
  discount_percent : float;
  price_tier : tier;
  value_score : float;
  is_on_sale : bool;
  url : str
}.

(** An entry of [self.base_categories] and of [self.categories]. *)
Record base_category := {
  base_name : str;
  default_pages : Z;
  base_expected_products : Z
}.

Record category_info := {
  cat_name : str;
  pages : Z;
  expected_products : float
}.

(** An entry of [self.categories_scraped]. *)
Record category_result := {
  cr_name : str;
  products_found : nat;
  pages_scraped : Z
}.

Record stats := {
  total_products : nat;
  categories_processed : nat;
  stats_pages_scraped : nat;
  errors : nat
}.

Record scraper := {
  products : list product;
  categories_scraped : gmap str category_result;
  scraping_stats : stats;
  categories : list (str * category_info)
}.

Definition count_error (self : scraper) : scraper :=
  let st := scraping_stats self in
  {| products := products self;
     categories_scraped := categories_scraped self;
     scraping_stats :=
       {| total_products := total_products st;
          categories_processed := categories_processed st;
          stats_pages_scraped := stats_pages_scraped st;
          errors := S (errors st) |};
     categories := categories self |}.

Definition count_page (self : scraper) : scraper :=
  let st := scraping_stats self in
  {| products := products self;
     categories_scraped := categories_scraped self;
     scraping_stats :=
       {| total_products := total_products st;
          categories_processed := categories_processed st;
          stats_pages_scraped := S (stats_pages_scraped st);
          errors := errors st |};
     categories := categories self |}.

Definition count_category (self : scraper) : scraper :=
  let st := scraping_stats self in
  {| products := products self;
     categories_scraped := categories_scraped self;
     scraping_stats :=
       {| total_products := total_products st;
          categories_processed := S (categories_processed st);
          stats_pages_scraped := stats_pages_scraped st;
          errors := errors st |};
     categories := categories self |}.

(** [EnhancedJumiaScraper()] *)
Definition init : scraper :=
  {| products := [];
     categories_scraped := ∅;
     scraping_stats :=
       {| total_products := 0; categories_processed := 0;
          stats_pages_scraped := 0; errors := 0 |};
     categories := [] |}.

Definition base_categories : list (str * base_category) :=
  [ ("ordinateurs-pc" : str,
     {| base_name := "Laptops & Computers"; default_pages := 4; base_expected_products := 80 |});
    ("telephones-smartphones" : str,
     {| base_name := "Smartphones"; default_pages := 4; base_expected_products := 80 |});
    ("tv-home-cinema-lecteurs" : str,
     {| base_name := "Televisions"; default_pages := 3; base_expected_products := 60 |});
    ("mlp-electromenager" : str,
     {| base_name := "Home Appliances"; default_pages := 3; base_expected_products := 60 |});
    ("jeux-videos-consoles" : str,
     {| base_name := "Gaming"; default_pages := 2; base_expected_products := 40 |}) ].

Definition brands_tech : list str :=
  ["HP" : str; "Dell" : str; "Lenovo" : str; "Asus" : str; "Acer" : str;
   "Apple" : str; "Microsoft" : str; "MSI" : str].
Definition brands_phones : list str :=
  ["Samsung" : str; "iPhone" : str; "Huawei" : str; "Xiaomi" : str;
   "OnePlus" : str; "Nokia" : str; "Oppo" : str; "Vivo" : str].
Definition brands_tv : list str :=
  ["Samsung" : str; "LG" : str; "Sony" : str; "TCL" : str; "Hisense" : str;
   "Toshiba" : str].
Definition brands_appliances : list str :=
  ["Samsung" : str; "LG" : str; "Whirlpool" : str; "Bosch" : str;
   "Electrolux" : str].
Definition brands_gaming : list str :=
  ["PlayStation" : str; "Xbox" : str; "Nintendo" : str; "Razer" : str;
   "Logitech" : str].

(** ** The leaf functions *)

(** The characters the substitution [re.sub(r'[^\d,.]', '', _)] keeps. *)
Definition price_char (c : ascii) : bool :=
  PyStr.is_digit c || bool_decide (c = ","%char) || bool_decide (c = "."%char).

Definition clean_price (price_text : str) : float :=
  match price_text with
  | [] => 0%float
  | _ =>
      let cleaned := List.filter price_char (PyStr.strip price_text) in
      let cleaned := PyStr.remove_all "," cleaned in
      match cleaned with
      | [] => 0%float
      | _ =>
          match PyFloat.of_str cleaned with
          | Some x => x
          | None => 0%float
          end
      end
  end.

Definition brands_to_check (category_key : str) : list str :=
  if bool_decide (category_key = "ordinateurs-pc")
     || bool_decide (category_key = "jeux-videos-consoles")
  then brands_tech ++ brands_gaming
  else if bool_decide (category_key = "telephones-smartphones") then brands_phones
  else if bool_decide (category_key = "tv-home-cinema-lecteurs") then brands_tv
  else if bool_decide (category_key = "mlp-electromenager") then brands_appliances
  else brands_tech ++ brands_phones ++ brands_tv ++ brands_appliances ++ brands_gaming.

Definition extract_brand (product_name category_key : str) : str :=
  let product_upper := PyStr.upper product_name in
  match
    find (fun brand => PyStr.contains (PyStr.upper brand) product_upper)
         (brands_to_check category_key)
  with
  | Some brand => brand
  | None => take 20 (default ("Unknown" : str) (PyStr.first_word product_name))
  end.

Definition common_words : list str :=
  ["Laptop" : str; "Smartphone" : str; "TV" : str; "Inch" : str; "GB" : str;
   "TB" : str; "RAM" : str; "SSD" : str; "HDD" : str].

(** One turn of the loop over [common_words]. *)
Definition remove_word (model word : str) : str :=
  PyStr.remove_all (PyStr.lower word)
    (PyStr.remove_all (PyStr.upper word) (PyStr.remove_all word model)).

Definition extract_model (product_name brand : str) : str :=
  if bool_decide (brand = "Unknown") || negb (PyStr.contains brand product_name)
  then take 100 product_name
  else
    let model := PyStr.strip (PyStr.remove_all brand product_name) in
    let model := fold_left remove_word common_words model in
    take 100 (PyStr.strip model).

Definition calculate_discount (current_price original_price : float) : float :=
  if (original_price =? 0)%float || (original_price <=? current_price)%float
  then 0%float
  else round2 ((original_price - current_price) / original_price * 100)%float.

Definition price_ranges : list (str * (float * float)) :=
  [ ("ordinateurs-pc" : str, (3000, 10000)%float);
    ("telephones-smartphones" : str, (2000, 6000)%float);
    ("tv-home-cinema-lecteurs" : str, (2500, 8000)%float);
    ("mlp-electromenager" : str, (1500, 5000)%float);
    ("jeux-videos-consoles" : str, (1000, 4000)%float) ].

(** [d.get(key, dflt)] on a dictionary written as its items. *)
Definition dict_get {V} (d : list (str * V)) (key : str) (dflt : V) : V :=
  match find (fun kv => bool_decide (kv.1 = key)) d with
  | Some kv => kv.2
  | None => dflt
  end.

(** The pair (budget, premium) that [classify_price_tier] looks up. *)
Definition ranges (category_key : str) : float * float :=
  dict_get price_ranges category_key (1000, 5000)%float.

Definition classify_price_tier (price : float) (category_key : str) : tier :=
  let '(budget, premium) := ranges category_key in
  if (price <=? budget)%float then Budget
  else if (price <=? premium)%float then Mid_range
  else Premium.

Definition price_bonus (current_price : float) : float :=
  if (current_price <? 1000)%float then 20%float
  else if (current_price <? 3000)%float then 10%float
  else if (current_price <? 5000)%float then 0%float
  else (-10)%float.

Definition calculate_value_score
  (current_price original_price discount_percent : float) : float :=
  let base_score := 50%float in
  let discount_bonus := py_min (discount_percent * 0.6)%float 30%float in
  let total_score := (base_score + discount_bonus + price_bonus current_price)%float in
  round2 (py_max 0%float (py_min 100%float total_score)).

(** [f"JUM_{product_index:04d}"] *)
Definition format_04d (n : nat) : str :=
  let ds : str := NilZero.string_of_uint (Nat.to_uint n) in
  repeat "0"%char (4 - length ds)%nat ++ ds.

Definition product_id_of (product_index : nat) : str :=
  ("JUM_" : str) ++ format_04d product_index.

Definition site_root : str := "https://www.jumia.ma".

(** [extract_product_data]: [None] for a container whose queries raise
    (the [except] branch) and for one without a valid price. *)
Definition extract_product_data
  (c : container) (category_key category_name : str) (product_index : nat)
  : option product :=
  if detached c then None
  else
    let product_name :=
      match name_elem c with
      | Some t => PyStr.strip t
      | None => "N/A" : str
      end in
    let current_price := clean_price (default ("0" : str) (price_elem c)) in
    let original_price := clean_price (default ("0" : str) (old_price_elem c)) in
    if (current_price =? 0)%float then None
    else
      let brand := extract_brand product_name category_key in
      let model := extract_model product_name brand in
      let discount_percent := calculate_discount current_price original_price in
      let product_url :=
        match link_elem c with
        | Some (Some href) =>
            match href with
            | [] => []
            | _ => site_root ++ href
            end
        | _ => []
        end in
      let price_tier := classify_price_tier current_price category_key in
      let value_score :=
        calculate_value_score current_price original_price discount_percent in
      Some
        {| product_id := product_id_of product_index;
           product_name := product_name;
           brand := brand;
           model := model;
           category := category_name;
           category_key := category_key;
           current_price := current_price;
           original_price :=
             if (0 <? original_price)%float then Some original_price else None;
           discount_percent := discount_percent;
           price_tier := price_tier;
           value_score := value_score;
           is_on_sale := (0 <? discount_percent)%float;
           url := product_url |}.

(** ** Pages, categories and the run *)

(** What navigating to a page and querying [article.prd] gives. *)
Inductive fetched :=
  | FetchError
  | Containers (product_containers : list container).

(** The locals of [scrape_category] that its page loop updates, next to
    [self]; [page_num] is unbound until the loop has run once. *)
Record page_loop := {
  pl_self : scraper;
  category_products : list product;
  page_num : option Z
}.

(** [self.categories_scraped[key] = ...; self.products.extend(...);
    self.scraping_stats['total_products'] = len(self.products)] *)
Definition store_category
  (self : scraper) (category_key category_name : str)
  (category_products : list product) (page_num : Z) : scraper :=
  let st := scraping_stats self in
  let products := products self ++ category_products in
  {| products := products;
     categories_scraped :=
       <[category_key :=
           {| cr_name := category_name;
              products_found := length category_products;
              pages_scraped := page_num |}]> (categories_scraped self);
     scraping_stats :=
       {| total_products := length products;
          categories_processed := categories_processed st;
          stats_pages_scraped := stats_pages_scraped st;
          errors := errors st |};
     categories := categories self |}.

Definition finalize_scraping (self : scraper) : scraper :=
  let st := scraping_stats self in
  {| products := products self;
     categories_scraped := categories_scraped self;
     scraping_stats :=
       {| total_products := length (products self);
          categories_processed := categories_processed st;
          stats_pages_scraped := stats_pages_scraped st;
          errors := errors st |};
     categories := categories self |}.

(** The argument [max_pages_per_category] is any Python value. *)
Inductive pyvalue :=
  | PyNone
  | PyBool (b : bool)
  | PyInt (n : Z)
  | PyFloat (x : float)
  | PyStr (s : str).

(** [isinstance(v, int)], with the value as an int ([bool] is a subclass
    of [int]). *)
Definition as_int (v : pyvalue) : option Z :=
  match v with
  | PyInt n => Some n
  | PyBool b => Some (if b then 1 else 0)
  | _ => None
  end.

(** The page count of a category: the body of the first loop of
    [scrape_all_categories] up to the dictionary it stores. *)
Definition effective_pages (max_pages_per_category : pyvalue) (info : base_category) : Z :=
  match as_int max_pages_per_category with
  | Some n => if 1 <=? n then n else default_pages info
  | None => default_pages info
  end.

Definition configure_category
  (max_pages_per_category : pyvalue) (info : base_category) : outcome category_info :=
  let pages := effective_pages max_pages_per_category info in
  match int_truediv pages (default_pages info) with
  | Raises e => Raises e
  | Returns ratio =>
      Returns
        {| cat_name := base_name info;
           pages := pages;
           expected_products :=
             (PyFloat.of_int (base_expected_products info) * ratio)%float |}
  end.

Fixpoint categories_to_scrape
  (max_pages_per_category : pyvalue) (base : list (str * base_category))
  : outcome (list (str * category_info)) :=
  match base with
  | [] => Returns []
  | (key, info) :: rest =>
      match configure_category max_pages_per_category info with
      | Raises e => Raises e
      | Returns c =>
          match categories_to_scrape max_pages_per_category rest with
          | Raises e => Raises e
          | Returns cs => Returns ((key, c) :: cs)
          end
      end
  end.

Section Run.

Variable fetch : str -> Z -> fetched.

(** [process_products].  [extract_product_data] catches every exception
    itself, so the [except] branch of this loop is never taken. *)
Definition process_products
  (self : scraper) (product_containers : list container)
  (category_key category_name : str) : list product :=
  fold_left
    (fun page_products c =>
       let current_product_count :=
         (length (products self) + length page_products)%nat in
       match
         extract_product_data c category_key category_name
           (current_product_count + 1)%nat
       with
       | Some product_data => page_products ++ [product_data]
       | None => page_products
       end)
    product_containers [].

(** The loop [for page_num in range(1, pages_to_scrape + 1)] over the page
    numbers that are left: a failed fetch counts an error and goes on, a
    page without containers breaks out of the loop.  The fetch is the only
    step of the [try] block that can raise. *)
Fixpoint scrape_pages
  (category_key category_name : str) (page_nums : list Z) (st : page_loop)
  : page_loop :=
  match page_nums with
  | [] => st
  | n :: rest =>
      match fetch category_key n with
      | FetchError =>
          scrape_pages category_key category_name rest
            {| pl_self := count_error (pl_self st);
               category_products := category_products st;
               page_num := Some n |}
      | Containers [] =>
          {| pl_self := pl_self st;
             category_products := category_products st;
             page_num := Some n |}
      | Containers product_containers =>
          let page_products :=
            process_products (pl_self st) product_containers
              category_key category_name in
          scrape_pages category_key category_name rest
            {| pl_self := count_page (pl_self st);
               category_products := category_products st ++ page_products;
               page_num := Some n |}
      end
  end.

(** [range(1, pages_to_scrape + 1)] *)
Definition page_range (pages_to_scrape : Z) : list Z :=
  seqZ 1 pages_to_scrape.

Definition run_pages
  (self : scraper) (category_key : str) (category_info : category_info)
  : page_loop :=
  scrape_pages category_key (cat_name category_info)
    (page_range (pages category_info))
    {| pl_self := self; category_products := []; page_num := None |}.

(** [scrape_category]: the state it leaves, and whether it returned.  Reading
    [page_num] after a loop that never ran raises [UnboundLocalError]. *)
Definition scrape_category
  (self : scraper) (category_key : str) (category_info : category_info)
  : scraper * outcome unit :=
  let st := run_pages self category_key category_info in
  match page_num st with
  | None => (pl_self st, Raises UnboundLocalError)
  | Some n =>
      (store_category (pl_self st) category_key (cat_name category_info)
         (category_products st) n,
       Returns tt)
  end.

(** The loop of [scrape_all_categories] over [self.categories.items()]. *)
Fixpoint run_categories
  (cats : list (str * category_info)) (self : scraper) : scraper :=
  match cats with
  | [] => self
  | (category_key, category_info) :: rest =>
      match scrape_category self category_key category_info with
      | (self, Returns _) => run_categories rest (count_category self)
      | (self, Raises _) => run_categories rest (count_error self)
      end
  end.

Definition set_categories
  (self : scraper) (cats : list (str * category_info)) : scraper :=
  {| products := products self;
     categories_scraped := categories_scraped self;
     scraping_stats := scraping_stats self;
     categories := cats |}.

(** [scrape_all_categories] up to the call of [save_data]. *)
Definition scrape_all_categories
  (self : scraper) (max_pages_per_category : pyvalue) : scraper * outcome unit :=
  match categories_to_scrape max_pages_per_category base_categories with
  | Raises e => (self, Raises e)
  | Returns cats =>
      let self := set_categories self cats in
      (finalize_scraping (run_categories cats self), Returns tt)
  end.

End Run.

(** ** The script *)

Section Main.

(** The builtin [int(s)] on a string; [None] is [ValueError]. *)
Variable int_of_str : str -> option Z.

(** The page count read from the prompt: [None] for the answer "none" in
    any case and for an answer that is not a number, else the number, raised
    to 1 when it is below. *)
Definition PAGES_TO_SCRAPE (pages_input : str) : option Z :=
  if bool_decide (PyStr.lower pages_input = "none") then None
  else
    match int_of_str pages_input with
    | Some n => if n <? 1 then Some 1 else Some n
    | None => None
    end.

End Main.

(** The loop of the script that adds up [expected_products_total], from the
    sum so far. *)
Fixpoint expected_products_total
  (pages_to_scrape : option Z) (base : list (str * base_category)) (total : float)
  : outcome float :=
  match base with
  | [] => Returns total
  | (_, info) :: rest =>
      let pages := default (default_pages info) pages_to_scrape in
      match int_truediv pages (default_pages info) with
      | Raises e => Raises e
      | Returns ratio =>
          expected_products_total pages_to_scrape rest
            (total + PyFloat.of_int (base_expected_products info) * ratio)%float
      end
  end.

(** The value the script passes as [max_pages_per_category]. *)
Definition as_argument (pages_to_scrape : option Z) : pyvalue :=
  from_option PyInt PyNone pages_to_scrape.

(** * Specifications and sample inputs *)

Import PyStr PyFloat.

(** ** Predicates on floats *)

(** Not a NaN. *)
Definition is_number (x : float) : Prop := Prim2SF x <> S754_nan.

(** [x] is a zero, an infinity or a finite number of sign [s]. *)
Definition signed (s : bool) (x : spec_float) : Prop :=
  match x with
  | S754_zero s' | S754_infinity s' | S754_finite s' _ _ => s' = s
  | S754_nan => False
  end.

(** A zero or a finite number. *)
Definition bounded_number (x : spec_float) : Prop :=
  match x with
  | S754_zero _ | S754_finite _ _ _ => True
  | _ => False
  end.

Definition is_inf (x : spec_float) : bool :=
  match x with S754_infinity _ => true | _ => false end.

(** [f] holds on the [count] integers from [n] on. *)
Fixpoint holds_from (count : nat) (n : Z) (f : Z -> bool) : bool :=
  match count with
  | O => true
  | S count' => f n && holds_from count' (n + 1) f
  end.

(** ** Predicates on strings *)

Definition blank (s : str) : Prop := Forall (fun c => is_space c = true) s.

(** ** The functions as the specification words them *)

(** The price: every character that is not a digit, a comma or a point
    goes, then the commas go, then the rest is parsed, and a failed parse is
    [0.0]. *)
Definition clean_price_spec (raw_text : str) : float :=
  let kept := List.filter price_char raw_text in
  let digits_and_points :=
    List.filter (fun c => negb (bool_decide (c = ","%char))) kept in
  default 0%float (of_str digits_and_points).

(** The tier: Budget up to the budget threshold, Mid-range above it and up
    to the premium threshold, Premium otherwise. *)
Definition price_tier_spec (price budget premium : float) : tier :=
  if (price <=? budget)%float then Budget
  else if ((budget <? price) && (price <=? premium))%float then Mid_range
  else Premium.

(** The value score: base 50, plus [min(discount x 0.6, 30)], plus the price
    step, clamped to [0, 100] and rounded to two decimals. *)
Definition clamp (lo hi x : float) : float :=
  if (x <? lo)%float then lo else if (hi <? x)%float then hi else x.

Definition value_score_spec (current_price discount_percent : float) : float :=
  let discount_bonus := py_min (discount_percent * 0.6)%float 30%float in
  round2 (clamp 0 100 (50 + discount_bonus + price_bonus current_price)%float).






(** ** Readings of the state *)

(** The cleaned text of [div.old], ["0"] standing in for a missing element. *)
Definition cleaned_original (c : container) : float :=
  clean_price (default ("0" : str) (old_price_elem c)).

(** The entry of [self.categories] built for a category. *)
Definition configured (max_pages_per_category : pyvalue) (info : base_category)
  : category_info :=
  let pages := effective_pages max_pages_per_category info in
  {| cat_name := base_name info;
     pages := pages;
     expected_products :=
       (of_int (base_expected_products info)
        * of_ratio false pages (Z.to_pos (default_pages info)))%float |}.

Definition errors_of (self : scraper) : nat := errors (scraping_stats self).

(** ** Sample inputs *)

(** A container with a name, a price, and a link or none. *)
Definition listing (name price : str) (href : option str) : container :=
  {| name_elem := Some name;
     price_elem := Some price;
     old_price_elem := None;
     link_elem := option_map Some href;
     detached := false |}.

(** A container whose price is 100 and whose crossed-out price is 50. *)
Definition marked_up : container :=
  {| name_elem := Some ("Dell Inspiron" : str);
     price_elem := Some ("100.00 Dhs" : str);
     old_price_elem := Some ("50.00 Dhs" : str);
     link_elem := None;
     detached := false |}.

(** The record built from [marked_up] as the first product of a run. *)
Definition marked_up_record : product :=
  {| product_id := "JUM_0001";
     product_name := "Dell Inspiron";
     brand := "Dell";
     model := "Inspiron";
     category := "Laptops & Computers";
     category_key := "ordinateurs-pc";
     current_price := 100;
     original_price := Some 50%float;
     discount_percent := 0;
     price_tier := Budget;
     value_score := 70;
     is_on_sale := false;
     url := [] |}.

(** A site whose first category has one product on page 1, one on page 2,
    and nothing after; the other categories are empty. *)
Definition two_pages (category_key : str) (page_num : Z) : fetched :=
  if bool_decide (category_key = "ordinateurs-pc") then
    if page_num =? 1 then
      Containers [listing "HP Pavilion 15" "3,499.00 Dhs" (Some ("/hp-15.html" : str))]
    else if page_num =? 2 then
      Containers [listing "Dell Vostro" "4,200.00 Dhs" (Some ("/dell.html" : str))]
    else Containers []
  else Containers [].

(** A category whose page 1 has three containers, the second with a price
    text that cleans to 0.0, and whose page 2 has none. *)
Definition end_of_results (category_key : str) (page_num : Z) : fetched :=
  if page_num =? 1 then
    Containers
      [listing "PlayStation 5" "5,990.00 Dhs" None;
       listing "Xbox Series S" "Prix sur demande" None;
       listing "Nintendo Switch" "3,290.00 Dhs" None]
  else Containers [].

Definition gaming_two_pages : category_info :=
  {| cat_name := "Gaming"; pages := 2; expected_products := 40 |}.


(** ** Further readings and sample inputs *)

(** The cleaned text of [div.prc], ["0"] standing in for a missing element. *)
Definition cleaned_current (c : container) : float :=
  clean_price (default ("0" : str) (price_elem c)).

(** The name a record carries for a container. *)
Definition shown_name (c : container) : str :=
  match name_elem c with
  | Some t => strip t
  | None => "N/A" : str
  end.

(** A container whose price was cut from 100,000 to 99,999. *)
Definition slight_markdown : container :=
  {| name_elem := Some ("Sony Bravia" : str);
     price_elem := Some ("99,999.00 Dhs" : str);
     old_price_elem := Some ("100,000.00 Dhs" : str);
     link_elem := None;
     detached := false |}.

(** [brand.upper() in product_name.upper()] *)
Definition occurs_in (product_name brand : str) : bool :=
  contains (upper brand) (upper product_name).



(** The index an identifier was built from: the decimal after ["JUM_"]. *)
Definition index_of_id (product_id : str) : option Z :=
  if startswith "JUM_" product_id then digits_value 0 (drop 4 product_id)
  else None.

(** A container that yields a record: its queries do not raise and its
    price does not clean to zero. *)
Definition accepted (c : container) : bool :=
  negb (detached c) && negb (cleaned_current c =? 0)%float.

(** The records of the containers of a page, the first accepted one numbered
    [next]. *)
Fixpoint page_records
  (next : nat) (cs : list container) (category_key category_name : str)
  : list product :=
  match cs with
  | [] => []
  | c :: cs' =>
      match extract_product_data c category_key category_name next with
      | Some p => p :: page_records (S next) cs' category_key category_name
      | None => page_records next cs' category_key category_name
      end
  end.

(** A page that failed to load. *)
Definition is_failure (f : fetched) : bool :=
  match f with FetchError => true | _ => false end.

(** A page on which the loop of [scrape_category] breaks. *)
Definition is_empty (f : fetched) : bool :=
  match f with Containers [] => true | _ => false end.

(** [self] with [n_pages] added to the page counter and [n_errors] to the
    error counter. *)
Definition add_counts (self : scraper) (n_pages n_errors : nat) : scraper :=
  let st := scraping_stats self in
  {| products := products self;
     categories_scraped := categories_scraped self;
     scraping_stats :=
       {| total_products := total_products st;
          categories_processed := categories_processed st;
          stats_pages_scraped := (stats_pages_scraped st + n_pages)%nat;
          errors := (errors st + n_errors)%nat |};
     categories := categories self |}.

Section Visits.

Variable fetch : str -> Z -> fetched.
Variable self : scraper.
Variables category_key category_name : str.

Definition failing (page_num : Z) : bool := is_failure (fetch category_key page_num).
Definition loaded (page_num : Z) : bool := negb (failing page_num).
Definition empty (page_num : Z) : bool := is_empty (fetch category_key page_num).

(** The records a page adds to [category_products]. *)
Definition page_yield (page_num : Z) : list product :=
  match fetch category_key page_num with
  | FetchError => []
  | Containers product_containers =>
      page_records (S (length (products self))) product_containers
        category_key category_name
  end.

End Visits.

(** The browser is down: every page fails to load. *)
Definition offline (category_key : str) (page_num : Z) : fetched := FetchError.

(** A category with a page to scrape; [scrape_category] returns on these. *)
Definition has_page (c : str * category_info) : bool := 1 <=? pages c.2.

(** [self.scraping_stats['total_products']] is up to date. *)
Definition counted (self : scraper) : Prop :=
  total_products (scraping_stats self) = length (products self).

(** [self.categories_scraped[key]['products_found']], 0 without an entry. *)
Definition found_in (self : scraper) (category_key : str) : nat :=
  from_option products_found 0%nat (categories_scraped self !! category_key).

(** What holds of every record the scraper builds. *)
Record well_formed (p : product) : Prop := {
  wf_name : strip (product_name p) = product_name p;
  wf_price : (0 <? current_price p)%float = true;
  wf_original : forall o, original_price p = Some o -> (0 <? o)%float = true;
  wf_sale :
    is_on_sale p = true ->
    exists o, original_price p = Some o /\ (current_price p <? o)%float = true;
  wf_brand : brand p = extract_brand (product_name p) (category_key p);
  wf_model : model p = extract_model (product_name p) (brand p);
  wf_tier : price_tier p = classify_price_tier (current_price p) (category_key p);
  wf_score :
    (0 <=? value_score p)%float = true /\ (value_score p <=? 100)%float = true;
  wf_flag : is_on_sale p = (0 <? discount_percent p)%float;
  wf_id : exists n : nat, (1 <= n)%nat /\ product_id p = product_id_of n
}.

(** The number in the identifier of a record is at least 1 and at most the
    position of the record in the collection, counted from 1. *)
Definition numbered (ps : list product) : Prop :=
  forall (i : nat) p, ps !! i = Some p ->
    exists n : nat, product_id p = product_id_of n /\ (1 <= n <= S i)%nat.

(** The sum of the expected products of the configured categories, added
    from the left as the script adds them. *)
Definition expected_sum (cats : list (str * category_info)) (total : float) : float :=
  fold_left (fun acc c => (acc + expected_products c.2)%float) cats total.

(** ** Values of floats *)

(** The value [m * 2 ^ e] of a mantissa and an exponent, scaled by
    [2 ^ 2200] so that it is an integer for every exponent that occurs in
    binary64 arithmetic. *)
Definition scaled (m e : Z) : Z := m * 2 ^ (e + 2200).

(** A scaled value above every finite binary64 number. *)
Definition ceiling : Z := 2 ^ 3224.

(** A mantissa and an exponent in the shape binary64 stores them. *)
Definition canonical (m : positive) (e : Z) : Prop :=
  fexp prec emax (Z.pos (digits2_pos m) + e) = e /\ e <= emax - prec.

(** Bits were lost below the mantissa of [mrs]. *)
Definition inexact (mrs : shr_record) : bool := shr_r mrs || shr_s mrs.

(** A shift of [mrs] to the right by [k] bits gave [mrs']: the mantissa is
    the floor, and bits are lost if they were before or if the shift lost
    some. *)
Definition shifted (k : Z) (mrs mrs' : shr_record) : Prop :=
  0 <= shr_m mrs' /\
  2 ^ k * shr_m mrs' <= shr_m mrs < 2 ^ k * (shr_m mrs' + 1) /\
  (inexact mrs' = true <->
   inexact mrs = true \/ 2 ^ k * shr_m mrs' < shr_m mrs).

(** A float that is [+0] or a positive number not above the canonical
    [mb * 2 ^ eb]. *)
Definition at_most (x : spec_float) (mb : positive) (eb : Z) : Prop :=
  x = S754_zero false \/
  exists m e,
    x = S754_finite false m e /\ scaled (Z.pos m) e <= scaled (Z.pos mb) eb.

(** The number of points in a text. *)
Definition points (s : str) : nat :=
  length (List.filter (fun c => bool_decide (c = "."%char)) s).

(** The rank of a tier. *)
Definition tier_rank (t : tier) : nat :=
  match t with Budget => 0 | Mid_range => 1 | Premium => 2 end.

(** The pages a category may take: its page count, and one attempt when it
    has none. *)
Definition page_allowance (c : str * category_info) : nat :=
  Z.to_nat (Z.max 1 (pages c.2)).

(** The score of a record without discount: the base score and the price
    step. *)
Definition plain_score (current_price : float) : float :=
  if (current_price <? 1000)%float then 70%float
  else if (current_price <? 3000)%float then 60%float
  else if (current_price <? 5000)%float then 50%float
  else 40%float.

(** * Properties *)

(** ** Comparison of floats *)

Lemma SFcompare_antisym x y :
  SFcompare y x = option_map CompOpp (SFcompare x y).
Proof.
  destruct x as [[]|[]| |[] mx ex], y as [[]|[]| |[] my ey]; simpl; try reflexivity;
    rewrite (Z.compare_antisym ex ey);
    change (Pos.compare_cont Eq my mx) with (Pos.compare_cont (CompOpp Eq) my mx);
    rewrite <- (Pos.compare_cont_antisym mx my Eq);
    destruct (ex ?= ey); simpl; try reflexivity;
    destruct (Pos.compare_cont Eq mx my); reflexivity.
Qed.

Lemma SFcompare_None x y :
  SFcompare x y = None -> x = S754_nan \/ y = S754_nan.
Proof.
  destruct x as [[]|[]| |[] mx ex], y as [[]|[]| |[] my ey]; simpl; intros H;
    (discriminate H || auto).
Qed.

Lemma leb_number_l x y : (x <=? y)%float = true -> is_number x.
Proof.
  rewrite FloatAxioms.leb_spec. unfold SFleb, is_number. intros H E. rewrite E in H. discriminate H.
Qed.

Lemma ltb_number_l x y : (x <? y)%float = true -> is_number x.
Proof.
  rewrite FloatAxioms.ltb_spec. unfold SFltb, is_number. intros H E. rewrite E in H. discriminate H.
Qed.

Lemma ltb_number_r x y : (x <? y)%float = true -> is_number y.
Proof.
  rewrite FloatAxioms.ltb_spec. unfold SFltb, is_number. intros H E. rewrite E in H.
  destruct (Prim2SF x); discriminate H.
Qed.

Lemma leb_number_r x y : (x <=? y)%float = true -> is_number y.
Proof.
  rewrite FloatAxioms.leb_spec. unfold SFleb, is_number. intros H E. rewrite E in H.
  destruct (Prim2SF x); discriminate H.
Qed.

(** On numbers, [x <= y] fails exactly when [y < x]. *)
Lemma leb_ltb_flip x y :
  is_number x -> is_number y -> (x <=? y)%float = negb (y <? x)%float.
Proof.
  unfold is_number. intros Hx Hy. rewrite FloatAxioms.leb_spec, FloatAxioms.ltb_spec.
  unfold SFleb, SFltb. rewrite (SFcompare_antisym (Prim2SF x) (Prim2SF y)).
  destruct (SFcompare (Prim2SF x) (Prim2SF y)) as [[]|] eqn:E; try reflexivity.
  destruct (SFcompare_None _ _ E); contradiction.
Qed.

Lemma ltb_leb_incompatible x y :
  (x <? y)%float = true -> (y <=? x)%float = false.
Proof.
  intros H. rewrite (leb_ltb_flip y x), H; eauto using ltb_number_l, ltb_number_r.
Qed.

Lemma ltb_leb x y : (x <? y)%float = true -> (x <=? y)%float = true.
Proof.
  rewrite FloatAxioms.ltb_spec, FloatAxioms.leb_spec. unfold SFltb, SFleb.
  destruct (SFcompare _ _) as [[]|]; congruence.
Qed.

Lemma leb_not_ltb_eqb x y :
  (x <=? y)%float = true -> (x <? y)%float = false -> (y =? x)%float = true.
Proof.
  rewrite FloatAxioms.ltb_spec, FloatAxioms.leb_spec, FloatAxioms.eqb_spec. unfold SFltb, SFleb, SFeqb.
  rewrite (SFcompare_antisym (Prim2SF x) (Prim2SF y)).
  destruct (SFcompare _ _) as [[]|]; simpl; congruence.
Qed.

(** ** Rounding keeps the sign *)

Lemma shr_1_nonneg mrs : 0 <= shr_m mrs -> 0 <= shr_m (shr_1 mrs).
Proof.
  destruct mrs as [[|[p|p|]|p] r s]; simpl; lia.
Qed.

Lemma iter_pos_shr_1_nonneg p mrs :
  0 <= shr_m mrs -> 0 <= shr_m (SpecFloat.iter_pos shr_1 p mrs).
Proof.
  revert mrs. induction p as [p IH|p IH|]; intros mrs H; simpl;
    auto using shr_1_nonneg.
Qed.

Lemma shr_nonneg mrs e n : 0 <= shr_m mrs -> 0 <= shr_m (shr mrs e n).1.
Proof.
  destruct n; simpl; auto using iter_pos_shr_1_nonneg.
Qed.

Lemma shr_fexp_nonneg m e l :
  0 <= m -> 0 <= shr_m (shr_fexp prec emax m e l).1.
Proof.
  intros H. unfold shr_fexp. apply shr_nonneg.
  destruct l as [|[]]; exact H.
Qed.

Lemma round_nearest_even_nonneg m l : 0 <= m -> 0 <= round_nearest_even m l.
Proof.
  destruct l as [|[]]; simpl; try lia. destruct (Z.even m); lia.
Qed.

Lemma binary_round_aux_signed s m e l :
  0 <= m -> signed s (binary_round_aux prec emax s m e l).
Proof.
  intros H. unfold binary_round_aux.
  pose proof (shr_fexp_nonneg m e l H) as H1.
  destruct (shr_fexp prec emax m e l) as [mrs' e'] eqn:E1. simpl in H1.
  pose proof (shr_fexp_nonneg _ e' loc_Exact
                (round_nearest_even_nonneg _ (loc_of_shr_record mrs') H1)) as H2.
  destruct (shr_fexp prec emax _ e' loc_Exact) as [mrs'' e''] eqn:E2. simpl in H2.
  destruct (shr_m mrs'') as [|p|p]; simpl; try reflexivity; try lia.
  destruct (e'' <=? emax - prec); reflexivity.
Qed.

Lemma binary_round_signed s m e : signed s (binary_round prec emax s m e).
Proof.
  unfold binary_round. destruct (shl_align _ _ _) as [mz ez].
  apply binary_round_aux_signed. lia.
Qed.

Lemma nearest_ratio_signed s n d : signed s (PyFloat.nearest_ratio s n d).
Proof.
  unfold PyFloat.nearest_ratio, SFdiv_core_binary.
  set (e' := Z.min _ _). set (m' := match 0 - 0 - e' with Z0 => _ | _ => _ end).
  assert (Hm : 0 <= m').
  { subst m'. destruct (0 - 0 - e'); try lia. apply Z.shiftl_nonneg. lia. }
  pose proof (Z.div_eucl_eq m' (Zpos d) ltac:(lia)) as Hq.
  pose proof (Z.mod_pos_bound m' (Zpos d) ltac:(lia)) as Hr.
  unfold Z.modulo in Hr.
  destruct (Z.div_eucl m' (Z.pos d)) as [q r].
  apply binary_round_aux_signed. nia.
Qed.

(** The float of a signed value is a number, and not below zero when the
    sign is positive. *)
Lemma SFleb_zero_signed x : signed false x -> SFleb (S754_zero false) x = true.
Proof.
  destruct x as [s|s| |s m e]; simpl; intros H; try contradiction; subst; reflexivity.
Qed.

Lemma binary_normalize_signed z :
  0 <= z -> signed false (binary_normalize prec emax z 0 false).
Proof.
  destruct z as [|p|p]; simpl; intros H; try lia; try reflexivity.
  apply binary_round_signed.
Qed.

Lemma SFldexp_signed s x k : signed s x -> signed s (SFldexp prec emax x k).
Proof.
  destruct x as [s'|s'| |s' m e]; simpl; intros H; try contradiction; subst;
    try reflexivity.
  apply binary_round_signed.
Qed.

Lemma SFopp_signed s x : signed s x -> signed (negb s) (SFopp x).
Proof.
  destruct x as [s'|s'| |s' m e]; simpl; intros H; try contradiction; subst;
    reflexivity.
Qed.

Lemma Prim2SF_SF2Prim_signed s x : signed s x -> signed s (Prim2SF (SF2Prim x)).
Proof.
  destruct x as [s'|s'| |s' m e]; simpl; intros H; try contradiction; subst.
  - destruct s; vm_compute; reflexivity.
  - destruct s; vm_compute; reflexivity.
  - assert (Hf : signed false
        (Prim2SF (Z.ldexp (of_uint63 (Uint63.of_Z (Z.pos m))) e))).
    { unfold Z.ldexp. rewrite ldshiftexp_spec, of_uint63_spec.
      apply SFldexp_signed, binary_normalize_signed, Uint63.to_Z_bounded. }
    destruct s; [|exact Hf].
    rewrite opp_spec. apply (SFopp_signed false), Hf.
Qed.

Lemma of_ratio_signed s n d : signed s (Prim2SF (PyFloat.of_ratio s n d)).
Proof.
  unfold PyFloat.of_ratio. apply Prim2SF_SF2Prim_signed.
  destruct n as [|p|p]; simpl; [reflexivity|apply nearest_ratio_signed|reflexivity].
Qed.

Lemma leb_zero_signed x : signed false (Prim2SF x) -> (0 <=? x)%float = true.
Proof.
  intros H. rewrite FloatAxioms.leb_spec. apply (SFleb_zero_signed _ H).
Qed.

Lemma of_ratio_nonneg n d : (0 <=? PyFloat.of_ratio false n d)%float = true.
Proof. apply leb_zero_signed, of_ratio_signed. Qed.

(** ** [clean_price] *)

Lemma space_not_price_char c : is_space c = true -> price_char c = false.
Proof.
  destruct c as [[] [] [] [] [] [] [] []]; vm_compute; congruence.
Qed.

Lemma filter_price_char_lstrip s :
  List.filter price_char (lstrip s) = List.filter price_char s.
Proof.
  induction s as [|c s IH]; simpl; [reflexivity|].
  destruct (is_space c) eqn:E; [|reflexivity].
  rewrite (space_not_price_char c E). exact IH.
Qed.

Lemma filter_price_char_strip s :
  List.filter price_char (strip s) = List.filter price_char s.
Proof.
  unfold strip, rstrip.
  rewrite List.filter_rev, filter_price_char_lstrip, <- List.filter_rev, rev_involutive.
  apply filter_price_char_lstrip.
Qed.

(** Removing a one-character string is a filter. *)
Lemma remove_all_char c s :
  remove_all [c] s = List.filter (fun x => negb (bool_decide (x = c))) s.
Proof.
  unfold remove_all. induction s as [|x s IH]; simpl; [reflexivity|].
  destruct (decide (c = x)) as [->|Hne].
  - rewrite !bool_decide_eq_true_2 by reflexivity. simpl. exact IH.
  - rewrite (bool_decide_eq_false_2 (c = x)) by exact Hne.
    rewrite (bool_decide_eq_false_2 (x = c)) by congruence. simpl. now rewrite IH.
Qed.

Lemma clean_price_refines s : clean_price s = clean_price_spec s.
Proof.
  unfold clean_price, clean_price_spec.
  destruct s as [|c s]; [reflexivity|].
  change (PyStr.remove_all (list_ascii_of_string ",")) with (remove_all [","%char]).
  rewrite remove_all_char, filter_price_char_strip.
  destruct (List.filter _ (List.filter price_char (c :: s))) as [|d ds] eqn:E.
  - reflexivity.
  - destruct (of_str (d :: ds)); reflexivity.
Qed.

Lemma of_str_nonneg s x : of_str s = Some x -> (0 <=? x)%float = true.
Proof.
  unfold of_str. destruct (split_point s) as [i f].
  destruct (i ++ default [] f) as [|d ds]; [discriminate|].
  destruct (digits_value 0 (d :: ds)); [|discriminate].
  intros [= <-]. apply of_ratio_nonneg.
Qed.

Lemma clean_price_nonneg s : (0 <=? clean_price s)%float = true.
Proof.
  rewrite clean_price_refines. unfold clean_price_spec.
  destruct (of_str _) as [x|] eqn:E; simpl.
  - exact (of_str_nonneg _ _ E).
  - reflexivity.
Qed.





(** ** [classify_price_tier] *)

Lemma dict_get_missing {V} (d : list (str * V)) key dflt :
  key ∉ map fst d -> dict_get d key dflt = dflt.
Proof.
  unfold dict_get. induction d as [|[k v] d IH]; simpl; [reflexivity|].
  rewrite not_elem_of_cons. intros [Hne Hd].
  rewrite bool_decide_eq_false_2 by congruence. exact (IH Hd).
Qed.

Lemma dict_get_found {V} (d : list (str * V)) key v dflt :
  NoDup (map fst d) -> (key, v) ∈ d -> dict_get d key dflt = v.
Proof.
  unfold dict_get. induction d as [|[k w] d IH]; simpl.
  - intros _ H. now apply elem_of_nil in H.
  - rewrite NoDup_cons, elem_of_cons. intros [Hk Hd] [[= -> ->]|Hin].
    + now rewrite bool_decide_eq_true_2.
    + rewrite bool_decide_eq_false_2; [exact (IH Hd Hin)|].
      intros ->. apply Hk. apply list_elem_of_fmap. exists (key, v). split; [reflexivity|exact Hin].
Qed.

Lemma price_ranges_keys : NoDup (map fst price_ranges).
Proof. apply (bool_decide_unpack _). vm_compute. exact I. Qed.

Lemma ranges_number key : is_number (ranges key).1 /\ is_number (ranges key).2.
Proof.
  unfold ranges, dict_get, price_ranges. simpl.
  repeat (case_bool_decide; simpl;
          [split; unfold is_number; vm_compute; discriminate|]).
  split; unfold is_number; vm_compute; discriminate.
Qed.

Lemma classify_price_tier_spec price key :
  classify_price_tier price key =
  price_tier_spec price (ranges key).1 (ranges key).2.
Proof.
  unfold classify_price_tier, price_tier_spec.
  destruct (ranges_number key) as [Hb _].
  destruct (ranges key) as [budget premium]. simpl in *.
  destruct (price <=? budget)%float eqn:E1; [reflexivity|].
  destruct (price <=? premium)%float eqn:E2.
  - rewrite (leb_ltb_flip price budget) in E1
      by eauto using leb_number_l.
    apply negb_false_iff in E1. now rewrite E1.
  - now rewrite andb_false_r.
Qed.

(** C7. The tier is Budget up to the budget threshold, Mid-range above it
    and up to the premium threshold, Premium otherwise; a known key reads
    its own pair, any other key the pair 1000, 5000, for which 1000 is
    Budget, 1000.01 and 5000 are Mid-range and 5000.01 is Premium. *)
Theorem classify_price_tier_thresholds :
  (forall price key,
     classify_price_tier price key =
     price_tier_spec price (ranges key).1 (ranges key).2) /\
  (forall key budget premium,
     (key, (budget, premium)) ∈ price_ranges -> ranges key = (budget, premium)) /\
  (forall key,
     key ∉ map fst price_ranges ->
     ranges key = (1000, 5000)%float /\
     classify_price_tier 1000%float key = Budget /\
     classify_price_tier 1000.01%float key = Mid_range /\
     classify_price_tier 5000%float key = Mid_range /\
     classify_price_tier 5000.01%float key = Premium).
Proof.
  split; [exact classify_price_tier_spec|]. split.
  - intros key budget premium H.
    exact (dict_get_found _ _ _ _ price_ranges_keys H).
  - intros key H.
    assert (E : ranges key = (1000, 5000)%float) by exact (dict_get_missing _ _ _ H).
    unfold classify_price_tier. rewrite E. repeat split; vm_compute; reflexivity.
Qed.

(** ** [round2] and [calculate_value_score] *)

Lemma digits2_pos_bound m : Z.pos m < 2 ^ Z.pos (digits2_pos m).
Proof.
  induction m as [m IH|m IH|]; simpl digits2_pos;
    rewrite ?Pos2Z.inj_succ, ?Z.pow_succ_r by lia; lia.
Qed.

(** A valid binary64 mantissa has at most 53 bits. *)
Lemma valid_mantissa s m e :
  valid_binary (S754_finite s m e) = true -> Z.pos m < 2 ^ 53.
Proof.
  simpl. unfold bounded, canonical_mantissa, fexp.
  intros H. apply andb_true_iff in H as [H _]. apply Z.eqb_eq in H.
  pose proof (digits2_pos_bound m) as Hm.
  assert (Hd : Z.pos (digits2_pos m) <= 53) by (unfold prec in H; lia).
  eapply Z.lt_le_trans; [exact Hm|]. apply Z.pow_le_mono_r; lia.
Qed.

Lemma round_half_even_bounds num den N :
  0 <= num -> num <= N * Z.pos den -> 0 <= round_half_even num den <= N.
Proof.
  intros H0 HN. unfold round_half_even.
  pose proof (Z.div_mod num (Z.pos den) ltac:(lia)) as Hdm.
  pose proof (Z.mod_pos_bound num (Z.pos den) ltac:(lia)) as Hr.
  set (q := num / Z.pos den) in *. set (r := num mod Z.pos den) in *.
  assert (Hq0 : 0 <= q) by nia.
  assert (HqN : q <= N) by nia.
  destruct (2 * r ?= Z.pos den) eqn:E.
  - apply Z.compare_eq in E. destruct (Z.even q); [lia|]. split; [lia|]. nia.
  - lia.
  - rewrite Z.compare_gt_iff in E. split; [lia|]. nia.
Qed.

Lemma holds_from_spec count n f :
  holds_from count n f = true ->
  forall k, n <= k < n + Z.of_nat count -> f k = true.
Proof.
  revert n. induction count as [|count IH]; intros n H k Hk; [lia|].
  simpl in H. apply andb_true_iff in H as [Hn H].
  destruct (Z.eq_dec k n) as [->|Hne]; [exact Hn|].
  apply (IH (n + 1) H). lia.
Qed.

(** Every multiple of 0.01 up to 100 converts to a float that is at most
    100: checked on the 10001 values. *)
Lemma of_ratio_hundredths n :
  0 <= n <= 10000 -> (PyFloat.of_ratio false n 100 <=? 100)%float = true.
Proof.
  intros H.
  assert (Hall : holds_from (Z.to_nat 10001) 0
                   (fun k => (PyFloat.of_ratio false k 100 <=? 100)%float) = true)
    by (vm_compute; reflexivity).
  apply (holds_from_spec _ _ _ Hall). rewrite Z2Nat.id; lia.
Qed.

Lemma SFltb_finite m1 e1 m2 e2 :
  SFltb (S754_finite false m1 e1) (S754_finite false m2 e2) = true ->
  e1 < e2 \/ (e1 = e2 /\ Z.pos m1 < Z.pos m2).
Proof.
  unfold SFltb. simpl. destruct (e1 ?= e2) eqn:E; try discriminate.
  - apply Z.compare_eq in E.
    destruct (Pos.compare_cont Eq m1 m2) eqn:Ec; try discriminate.
    change (Pos.compare_cont Eq m1 m2) with (m1 ?= m2)%positive in Ec.
    rewrite Pos.compare_lt_iff in Ec. intros _. right. lia.
  - rewrite Z.compare_lt_iff in E. auto.
Qed.

Lemma round2_bounds x :
  (0 <? x)%float = true -> (x <? 100)%float = true ->
  (0 <=? round2 x)%float = true /\ (round2 x <=? 100)%float = true.
Proof.
  intros H0 H100. unfold round2.
  pose proof (Prim2SF_valid x) as Hv.
  rewrite FloatAxioms.ltb_spec in H0, H100.
  change (Prim2SF 0) with (S754_zero false) in H0.
  change (Prim2SF 100) with (S754_finite false 7036874417766400 (-46)) in H100.
  destruct (Prim2SF x) as [s|s| |s m e].
  - destruct s; simpl in H0; discriminate H0.
  - destruct s; simpl in H0, H100; [discriminate H0|discriminate H100].
  - simpl in H0; discriminate H0.
  - destruct s; simpl in H0; [discriminate H0|].
    pose proof (valid_mantissa _ _ _ Hv) as Hm.
    apply SFltb_finite in H100.
    assert (Hn : exists k, e = Z.neg k /\ 100 * Z.pos m <= 10000 * Z.pos (2 ^ k)).
    { destruct H100 as [E|[-> E]].
      - destruct e as [|p|k]; try lia.
        exists k. split; [reflexivity|].
        rewrite Pos2Z.inj_pow.
        assert (2 ^ 47 <= 2 ^ Z.pos k) by (apply Z.pow_le_mono_r; lia).
        change (2 ^ 53) with (64 * 2 ^ 47) in Hm. change (Z.pos 2) with 2. nia.
      - exists 46%positive. split; [reflexivity|].
        change (Z.pos (2 ^ 46)) with 70368744177664. lia. }
    destruct Hn as (k & -> & Hk).
    pose proof (round_half_even_bounds (100 * Z.pos m) (2 ^ k) 10000 ltac:(lia) Hk).
    split; [apply of_ratio_nonneg|apply of_ratio_hundredths; assumption].
Qed.

(** A clamped score is 0, 100, or the score itself strictly in between. *)
Lemma clamp_cases t :
  let y := py_max 0%float (py_min 100%float t) in
  y = 0%float \/ y = 100%float \/
  (y = t /\ (0 <? t)%float = true /\ (t <? 100)%float = true).
Proof.
  unfold py_max, py_min. destruct (t <? 100)%float eqn:E1.
  - destruct (0 <? t)%float eqn:E2; auto.
  - right. left. reflexivity.
Qed.

Lemma value_score_bounds c o d :
  (0 <=? calculate_value_score c o d)%float = true /\
  (calculate_value_score c o d <=? 100)%float = true.
Proof.
  unfold calculate_value_score.
  destruct (clamp_cases (50 + py_min (d * 0.6) 30 + price_bonus c)%float)
    as [-> | [-> | (-> & H0 & H100)]].
  - split; vm_compute; reflexivity.
  - split; vm_compute; reflexivity.
  - exact (round2_bounds _ H0 H100).
Qed.

Lemma eqb_refl_number x : is_number x -> (x =? x)%float = true.
Proof.
  unfold is_number. rewrite FloatAxioms.eqb_spec. unfold SFeqb.
  destruct (Prim2SF x) as [[]|[]| |[] m e]; simpl; intros H; try reflexivity;
    try (now destruct H);
    rewrite Z.compare_refl; change (Pos.compare_cont Eq m m) with (m ?= m)%positive;
    now rewrite Pos.compare_refl.
Qed.

Lemma binary_normalize_number z e :
  binary_normalize prec emax z e false <> S754_nan.
Proof.
  destruct z as [|p|p]; simpl; [discriminate| |].
  - pose proof (binary_round_signed false p e) as H. intros E. now rewrite E in H.
  - pose proof (binary_round_signed true p e) as H. intros E. now rewrite E in H.
Qed.

Lemma SFadd_number x y :
  x <> S754_nan -> bounded_number y -> SFadd prec emax x y <> S754_nan.
Proof.
  destruct x as [sx|sx| |sx mx ex], y as [sy|sy| |sy my ey]; simpl;
    intros Hx Hy; try contradiction; try discriminate.
  - destruct sx, sy; discriminate.
  - apply binary_normalize_number.
Qed.

Lemma SFmul_number x y :
  bounded_number x -> bounded_number y -> SFmul prec emax x y <> S754_nan.
Proof.
  destruct x as [sx|sx| |sx mx ex], y as [sy|sy| |sy my ey]; simpl;
    intros Hx Hy; try contradiction; try discriminate.
  pose proof (binary_round_aux_signed (xorb sx sy) (Z.pos (mx * my)) (ex + ey)
                loc_Exact ltac:(lia)) as H.
  intros E. now rewrite E in H.
Qed.

Lemma bounded_between x :
  (0 <=? x)%float = true -> (x <=? 100)%float = true -> bounded_number (Prim2SF x).
Proof.
  rewrite !FloatAxioms.leb_spec.
  change (Prim2SF 0) with (S754_zero false).
  change (Prim2SF 100) with (S754_finite false 7036874417766400 (-46)).
  destruct (Prim2SF x) as [s|s| |s m e]; simpl; intros H0 H100; try exact I.
  - destruct s; [discriminate H0|discriminate H100].
  - discriminate H0.
Qed.

Lemma py_min_number a b : is_number a -> is_number b -> is_number (py_min a b).
Proof. unfold py_min. destruct (b <? a)%float; auto. Qed.

Lemma price_bonus_bounded c : bounded_number (Prim2SF (price_bonus c)).
Proof.
  unfold price_bonus.
  destruct (c <? 1000)%float; [exact I|].
  destruct (c <? 3000)%float; [exact I|].
  destruct (c <? 5000)%float; exact I.
Qed.

Lemma total_score_number c d :
  (0 <=? d)%float = true -> (d <=? 100)%float = true ->
  is_number (50 + py_min (d * 0.6) 30 + price_bonus c)%float.
Proof.
  intros H0 H100. unfold is_number. rewrite add_spec.
  apply SFadd_number; [|apply price_bonus_bounded].
  rewrite add_spec.
  assert (Hb : is_number (py_min (d * 0.6) 30)%float).
  { apply py_min_number; [|unfold is_number; vm_compute; discriminate].
    unfold is_number. rewrite mul_spec.
    apply SFmul_number; [exact (bounded_between _ H0 H100)|exact I]. }
  unfold is_number in Hb.
  change (Prim2SF 50) with (S754_finite false 7036874417766400 (-47)).
  destruct (Prim2SF (py_min (d * 0.6) 30)) as [s|s| |s m e]; simpl;
    try discriminate; try (now destruct Hb).
  apply binary_normalize_number.
Qed.

Lemma SFcompare_Eq_finite x m e :
  SFcompare x (S754_finite false m e) = Some Eq -> x = S754_finite false m e.
Proof.
  destruct x as [s|s| |s mx ex]; simpl; try (destruct s; discriminate); try discriminate.
  destruct s; [discriminate|].
  destruct (ex ?= e) eqn:E; try discriminate.
  apply Z.compare_eq in E. subst ex.
  change (Pos.compare_cont Eq mx m) with (mx ?= m)%positive.
  destruct (mx ?= m)%positive eqn:Ec; try discriminate.
  apply Pos.compare_eq in Ec. now subst.
Qed.

Lemma SFcompare_Eq_zero x s :
  SFcompare x (S754_zero s) = Some Eq -> exists s', x = S754_zero s'.
Proof.
  destruct x as [s'|s'| |s' mx ex]; simpl; try (destruct s'; discriminate);
    try discriminate.
  eauto.
Qed.

Lemma not_ltb_compare x y :
  is_number x -> is_number y ->
  (x <? y)%float = false -> (y <? x)%float = false ->
  SFcompare (Prim2SF x) (Prim2SF y) = Some Eq.
Proof.
  unfold is_number. rewrite !FloatAxioms.ltb_spec. unfold SFltb.
  rewrite (SFcompare_antisym (Prim2SF x) (Prim2SF y)).
  intros Hx Hy. destruct (SFcompare (Prim2SF x) (Prim2SF y)) as [[]|] eqn:E; simpl;
    try discriminate; try reflexivity.
  destruct (SFcompare_None _ _ E); contradiction.
Qed.

Lemma below_zero_below_100 t :
  (t <? 0)%float = true -> (t <? 100)%float = true.
Proof.
  rewrite !FloatAxioms.ltb_spec.
  change (Prim2SF 0) with (S754_zero false).
  change (Prim2SF 100) with (S754_finite false 7036874417766400 (-46)).
  destruct (Prim2SF t) as [s|s| |s m e]; simpl; intros H; try discriminate H;
    destruct s; try discriminate H; reflexivity.
Qed.

(** On a number, [max(0, min(100, t))] and the clamp agree as floats
    compare ([==]); they differ in the sign of a zero only. *)
Lemma clamp_agrees t :
  is_number t ->
  (round2 (py_max 0 (py_min 100 t)) =? round2 (clamp 0 100 t))%float = true.
Proof.
  intros Ht. unfold py_max, py_min, clamp.
  assert (H0n : is_number 0%float) by (unfold is_number; vm_compute; discriminate).
  assert (H100n : is_number 100%float) by (unfold is_number; vm_compute; discriminate).
  destruct (t <? 100)%float eqn:E100.
  - destruct (0 <? t)%float eqn:E0.
    + assert (Et : (t <? 0)%float = false).
      { destruct (t <? 0)%float eqn:E; [|reflexivity].
        pose proof (ltb_leb_incompatible _ _ E) as H1.
        pose proof (ltb_leb _ _ E0) as H2. congruence. }
      assert (Eh : (100 <? t)%float = false).
      { destruct (100 <? t)%float eqn:E; [|reflexivity].
        pose proof (ltb_leb_incompatible _ _ E) as H1.
        pose proof (ltb_leb _ _ E100) as H2. congruence. }
      rewrite Et, Eh.
      apply eqb_refl_number.
      eapply leb_number_r, (proj1 (round2_bounds t E0 E100)).
    + destruct (t <? 0)%float eqn:Et; [vm_compute; reflexivity|].
      assert (Eh : (100 <? t)%float = false).
      { destruct (100 <? t)%float eqn:E; [|reflexivity].
        pose proof (ltb_leb_incompatible _ _ E) as H1.
        pose proof (ltb_leb _ _ E100) as H2. congruence. }
      rewrite Eh.
      pose proof (not_ltb_compare t 0 Ht H0n Et E0) as Hc.
      change (Prim2SF 0) with (S754_zero false) in Hc.
      apply SFcompare_Eq_zero in Hc as [s Hs].
      unfold round2 at 2. rewrite Hs.
      change (round2 0) with 0%float.
      rewrite FloatAxioms.eqb_spec, Hs. reflexivity.
  - change (0 <? 100)%float with true. cbv iota.
    destruct (t <? 0)%float eqn:Et.
    { apply below_zero_below_100 in Et. congruence. }
    destruct (100 <? t)%float eqn:Eh; [vm_compute; reflexivity|].
    pose proof (not_ltb_compare t 100 Ht H100n E100 Eh) as Hc.
    change (Prim2SF 100) with (S754_finite false 7036874417766400 (-46)) in Hc.
    apply SFcompare_Eq_finite in Hc.
    assert (t = 100%float) as -> by (apply Prim2SF_inj; exact Hc).
    vm_compute. reflexivity.
Qed.

(** C8. For a price and an original price that are not below zero and a
    discount between 0 and 100, the value score lies between 0 and 100 and
    is the rounded clamp of 50 plus [min(discount x 0.6, 30)] plus the price
    step; [value_score(500, 1000, 50)] is 100. *)
Theorem value_score_range :
  (forall current_price original_price discount_percent,
     (0 <=? current_price)%float = true ->
     (0 <=? original_price)%float = true ->
     (0 <=? discount_percent)%float = true ->
     (discount_percent <=? 100)%float = true ->
     let score :=
       calculate_value_score current_price original_price discount_percent in
     (0 <=? score)%float = true /\ (score <=? 100)%float = true /\
     (score =? value_score_spec current_price discount_percent)%float = true) /\
  calculate_value_score 500 1000 50 = 100%float.
Proof.
  split; [|vm_compute; reflexivity].
  intros c o d _ _ Hd0 Hd100 score.
  destruct (value_score_bounds c o d) as [H0 H100].
  repeat split; [exact H0|exact H100|].
  apply clamp_agrees, total_score_number; assumption.
Qed.

Lemma value_score_range_witness :
  let score := calculate_value_score 500 1000 50 in
  (0 <=? score)%float = true /\ (score <=? 100)%float = true /\
  (score =? value_score_spec 500 50)%float = true.
Proof.
  apply (proj1 value_score_range 500 1000 50)%float; vm_compute; reflexivity.
Defined.

(** ** [extract_product_data] *)


Lemma extract_original_price c key name idx r :
  extract_product_data c key name idx = Some r ->
  original_price r =
  if (0 <? cleaned_original c)%float then Some (cleaned_original c) else None.
Proof.
  unfold extract_product_data, cleaned_original.
  destruct (detached c); [discriminate|].
  destruct (_ =? 0)%float; [discriminate|].
  intros [= <-]. reflexivity.
Qed.

Lemma marked_up_accepted :
  extract_product_data marked_up "ordinateurs-pc" "Laptops & Computers" 1
  = Some marked_up_record.
Proof. vm_compute. reflexivity. Qed.




(** ** [extract_model] *)

(** *** Stripping and removing commute around blanks *)

Lemma lstrip_split s : exists ws, blank ws /\ s = ws ++ lstrip s.
Proof.
  induction s as [|c s (ws & Hws & IH)]; [exists []; split; [constructor|reflexivity]|].
  simpl. destruct (is_space c) eqn:E.
  - exists (c :: ws). split; [now constructor|]. simpl. now rewrite <- IH.
  - exists []. split; [constructor|reflexivity].
Qed.


Lemma blank_rev ws : blank ws -> blank (rev ws).
Proof. apply Forall_rev. Qed.

Lemma rstrip_split s : exists ws, blank ws /\ s = rstrip s ++ ws.
Proof.
  unfold rstrip. destruct (lstrip_split (rev s)) as (ws & Hws & E).
  exists (rev ws). split; [now apply blank_rev|].
  rewrite <- rev_app_distr, <- E. now rewrite rev_involutive.
Qed.



Lemma strip_split s :
  exists ws1 ws2, blank ws1 /\ blank ws2 /\ s = ws1 ++ strip s ++ ws2.
Proof.
  destruct (lstrip_split s) as (ws1 & H1 & E1).
  destruct (rstrip_split (lstrip s)) as (ws2 & H2 & E2).
  exists ws1, ws2. repeat split; try assumption.
  unfold strip. now rewrite <- E2.
Qed.





Lemma startswith_length w s : startswith w s = true -> (length w <= length s)%nat.
Proof.
  revert s. induction w as [|a w IH]; intros s; simpl; [lia|].
  destruct s as [|b s]; [discriminate|]. simpl.
  intros H. apply andb_true_iff in H as [_ H]. apply IH in H. lia.
Qed.











(** ** Quotients that do not overflow *)

Lemma digits2_pos_lower m : 2 ^ (Z.pos (digits2_pos m) - 1) <= Z.pos m.
Proof.
  induction m as [m IH|m IH|]; simpl digits2_pos; [| |simpl; lia];
    rewrite Pos2Z.inj_succ;
    replace (Z.succ (Z.pos (digits2_pos m)) - 1)
      with (Z.succ (Z.pos (digits2_pos m) - 1)) by lia;
    rewrite Z.pow_succ_r by lia; lia.
Qed.

Lemma Zdigits2_le z k : 0 <= k -> 0 <= z < 2 ^ k -> Zdigits2 z <= k.
Proof.
  intros Hk [H0 Hz]. destruct z as [|m|m]; simpl; try lia.
  pose proof (digits2_pos_lower m) as Hl.
  destruct (Z.le_gt_cases (Z.pos (digits2_pos m)) k) as [|Hgt]; [assumption|].
  assert (2 ^ k <= 2 ^ (Z.pos (digits2_pos m) - 1)) by (apply Z.pow_le_mono_r; lia).
  lia.
Qed.

Lemma shr_1_half mrs : 0 <= shr_m mrs -> 2 * shr_m (shr_1 mrs) <= shr_m mrs.
Proof.
  destruct mrs as [[|[p|p|]|p] r s]; simpl; lia.
Qed.

Lemma iter_pos_shr_1_le p mrs :
  0 <= shr_m mrs ->
  2 ^ Z.pos p * shr_m (SpecFloat.iter_pos shr_1 p mrs) <= shr_m mrs.
Proof.
  revert mrs. induction p as [p IH|p IH|]; intros mrs H; simpl SpecFloat.iter_pos.
  - pose proof (shr_1_nonneg mrs H) as H1. pose proof (shr_1_half mrs H) as H1'.
    pose proof (iter_pos_shr_1_nonneg p _ H1) as H2. pose proof (IH _ H1) as H2'.
    pose proof (iter_pos_shr_1_nonneg p _ H2) as H3. pose proof (IH _ H2) as H3'.
    replace (Z.pos p~1) with (Z.pos p + Z.pos p + 1) by lia.
    rewrite !Z.pow_add_r by lia. change (2 ^ 1) with 2.
    assert (HP : 0 < 2 ^ Z.pos p) by (apply Z.pow_pos_nonneg; lia).
    revert H1 H1' H2 H2' H3 H3' HP.
    generalize (2 ^ Z.pos p), (shr_m mrs), (shr_m (shr_1 mrs)),
      (shr_m (SpecFloat.iter_pos shr_1 p (shr_1 mrs))),
      (shr_m (SpecFloat.iter_pos shr_1 p (SpecFloat.iter_pos shr_1 p (shr_1 mrs)))).
    intros P a b c d. nia.
  - pose proof (iter_pos_shr_1_nonneg p _ H) as H2. pose proof (IH _ H) as H2'.
    pose proof (iter_pos_shr_1_nonneg p _ H2) as H3. pose proof (IH _ H2) as H3'.
    replace (Z.pos p~0) with (Z.pos p + Z.pos p) by lia.
    rewrite !Z.pow_add_r by lia.
    assert (HP : 0 < 2 ^ Z.pos p) by (apply Z.pow_pos_nonneg; lia).
    revert H H2 H2' H3 H3' HP.
    generalize (2 ^ Z.pos p), (shr_m mrs),
      (shr_m (SpecFloat.iter_pos shr_1 p mrs)),
      (shr_m (SpecFloat.iter_pos shr_1 p (SpecFloat.iter_pos shr_1 p mrs))).
    intros P a c d. nia.
  - change (2 ^ 1) with 2. now apply shr_1_half.
Qed.

(** A right shift to the exponent [e']: the mantissa shrinks by the factor,
    and the new exponent is the larger of the two. *)
Lemma shr_fexp_le m e l :
  0 <= m ->
  let '(mrs, e') := shr_fexp prec emax m e l in
  0 <= shr_m mrs /\ e <= e' /\ 2 ^ (e' - e) * shr_m mrs <= m /\
  e' = Z.max e (fexp prec emax (Zdigits2 m + e)).
Proof.
  intros H. unfold shr_fexp, shr.
  assert (Hr : shr_m (shr_record_of_loc m l) = m) by (destruct l as [|[]]; reflexivity).
  destruct (fexp prec emax (Zdigits2 m + e) - e) as [|p|p] eqn:E.
  - rewrite Hr, Z.sub_diag. simpl. lia.
  - pose proof (iter_pos_shr_1_le p (shr_record_of_loc m l) ltac:(lia)) as Hle.
    pose proof (iter_pos_shr_1_nonneg p (shr_record_of_loc m l) ltac:(lia)) as Hnn.
    rewrite Hr in Hle. replace (e + Z.pos p - e) with (Z.pos p) by lia.
    repeat split; try lia.
  - rewrite Hr, Z.sub_diag. simpl. lia.
Qed.

Lemma round_nearest_even_le m l : round_nearest_even m l <= m + 1.
Proof.
  destruct l as [|[]]; simpl; try lia. destruct (Z.even m); lia.
Qed.

(** Rounding a mantissa below [2 ^ (1023 - e)] stays finite. *)
Lemma binary_round_aux_finite s m e l :
  0 <= m -> e <= 0 -> m < 2 ^ (1023 - e) ->
  is_inf (binary_round_aux prec emax s m e l) = false.
Proof.
  intros H0 He Hm. unfold binary_round_aux.
  pose proof (shr_fexp_le m e l H0) as H1.
  destruct (shr_fexp prec emax m e l) as [mrs1 e1].
  destruct H1 as (Hn1 & Hee1 & Hle1 & He1).
  assert (Hd : Zdigits2 m <= 1023 - e) by (apply Zdigits2_le; lia).
  assert (He1' : e1 <= 970) by (unfold fexp, SpecFloat.emin, prec, emax in He1; lia).
  assert (Hm1 : shr_m mrs1 < 2 ^ (1023 - e1)).
  { replace (1023 - e) with ((1023 - e1) + (e1 - e)) in Hm by lia.
    rewrite Z.pow_add_r in Hm by lia.
    assert (0 < 2 ^ (e1 - e)) by (apply Z.pow_pos_nonneg; lia). nia. }
  set (m2 := round_nearest_even (shr_m mrs1) (loc_of_shr_record mrs1)).
  pose proof (round_nearest_even_nonneg (shr_m mrs1) (loc_of_shr_record mrs1) Hn1) as Hn2.
  pose proof (round_nearest_even_le (shr_m mrs1) (loc_of_shr_record mrs1)) as Hle2.
  fold m2 in Hn2, Hle2.
  pose proof (shr_fexp_le m2 e1 loc_Exact Hn2) as H2.
  destruct (shr_fexp prec emax m2 e1 loc_Exact) as [mrs2 e2].
  destruct H2 as (_ & _ & _ & He2).
  assert (Hd2 : Zdigits2 m2 <= 1024 - e1).
  { apply Zdigits2_le; [lia|]. split; [lia|].
    replace (1024 - e1) with (Z.succ (1023 - e1)) by lia.
    rewrite Z.pow_succ_r by lia. lia. }
  assert (He2' : e2 <= 971) by (unfold fexp, SpecFloat.emin, prec, emax in He2; lia).
  destruct (shr_m mrs2); try reflexivity.
  replace (e2 <=? emax - prec) with true; [reflexivity|].
  symmetry. apply Z.leb_le. unfold emax, prec. lia.
Qed.

Lemma ratio_finite s n d :
  0 <= n < 2 ^ 1024 -> (2 <= d)%positive -> is_inf (ratio s n d) = false.
Proof.
  intros [H0 Hn] Hd. unfold ratio. destruct n as [|p|p]; try reflexivity.
  unfold nearest_ratio, SFdiv_core_binary.
  set (e' := Z.min _ _).
  assert (He : e' <= 0) by (subst e'; lia).
  set (m' := match 0 - 0 - e' with Z0 => _ | _ => _ end).
  assert (Hm : m' = Z.pos p * 2 ^ (- e')).
  { subst m'. replace (0 - 0 - e') with (- e') by lia.
    destruct (- e') as [|k|k] eqn:E; try lia.
    now rewrite Z.shiftl_mul_pow2 by lia. }
  pose proof (Z.div_eucl_eq m' (Z.pos d) ltac:(lia)) as Hq.
  pose proof (Z.mod_pos_bound m' (Z.pos d) ltac:(lia)) as Hr.
  unfold Z.modulo in Hr.
  destruct (Z.div_eucl m' (Z.pos d)) as [q r].
  assert (Hp : 0 < 2 ^ (- e')) by (apply Z.pow_pos_nonneg; lia).
  apply binary_round_aux_finite; [nia|exact He|].
  replace (1023 - e') with (Z.succ (1022 + - e')) by lia.
  rewrite Z.pow_succ_r, Z.pow_add_r by lia.
  change (2 ^ 1024) with (4 * 2 ^ 1022) in Hn.
  assert (0 < 2 ^ 1022) by (apply Z.pow_pos_nonneg; lia).
  assert (2 <= Z.pos d) by lia.
  nia.
Qed.

(** ** The page-count override *)

Lemma int_truediv_returns a b :
  0 <= a < 2 ^ 1024 -> 2 <= b ->
  int_truediv a b = Returns (of_ratio false a (Z.to_pos b)).
Proof.
  intros Ha Hb. unfold int_truediv, of_ratio.
  destruct b as [|d|d]; try lia.
  replace (a <? 0) with false by (symmetry; apply Z.ltb_ge; lia).
  rewrite Z.abs_eq by lia.
  change (xorb false (Z.pos d <? 0)) with false.
  change (Z.to_pos (Z.abs (Z.pos d))) with d.
  change (Z.to_pos (Z.pos d)) with d.
  pose proof (ratio_finite false a d Ha ltac:(lia)) as Hf.
  destruct (ratio false a d); try reflexivity. discriminate Hf.
Qed.

Lemma categories_to_scrape_returns v base :
  Forall (fun b => 2 <= default_pages b.2 /\
                   0 <= effective_pages v b.2 < 2 ^ 1024) base ->
  categories_to_scrape v base =
  Returns (map (fun b => (b.1, configured v b.2)) base).
Proof.
  induction 1 as [|[key info] base [Hd Hp] _ IH]; [reflexivity|].
  simpl in *. unfold configure_category.
  rewrite (int_truediv_returns _ _ Hp Hd), IH. reflexivity.
Qed.

Lemma base_categories_pages :
  Forall (fun b => 2 <= default_pages b.2 < 2 ^ 1024) base_categories.
Proof.
  repeat (apply List.Forall_cons; [simpl; lia|]). apply List.Forall_nil.
Qed.

Lemma effective_pages_valid v n info :
  as_int v = Some n -> 1 <= n -> effective_pages v info = n.
Proof.
  intros Hv Hn. unfold effective_pages. rewrite Hv.
  now replace (1 <=? n) with true by (symmetry; apply Z.leb_le; lia).
Qed.

Lemma effective_pages_invalid v info :
  (forall n, as_int v = Some n -> n < 1) ->
  effective_pages v info = default_pages info.
Proof.
  intros Hv. unfold effective_pages. destruct (as_int v) as [n|]; [|reflexivity].
  specialize (Hv n eq_refl).
  now replace (1 <=? n) with false by (symmetry; apply Z.leb_gt; lia).
Qed.

(** C10 on the code: an int override can be too large for the float
    quotient [pages / default_pages]; the set-up then raises, outside any
    [try], and no category gets a page count. *)
Lemma huge_override_raises :
  as_int (PyInt (2 ^ 1030)) = Some (2 ^ 1030) /\
  1 <= 2 ^ 1030 /\
  categories_to_scrape (PyInt (2 ^ 1030)) base_categories = Raises OverflowError /\
  (forall fetch self,
     scrape_all_categories fetch self (PyInt (2 ^ 1030))
     = (self, Raises OverflowError)).
Proof.
  assert (H : categories_to_scrape (PyInt (2 ^ 1030)) base_categories
              = Raises OverflowError) by (vm_compute; reflexivity).
  split_and!; [reflexivity|lia|exact H|].
  intros fetch self. unfold scrape_all_categories. now rewrite H.
Qed.

(** X1 (C10 within float range).  An int override from 1 up to (not including)
    [2 ^ 1024] becomes the page count of every category; any value that is
    not an int, or is an int below 1, raises nothing and leaves every
    category with its default page count. *)
Theorem page_override :
  (forall v n,
     as_int v = Some n -> 1 <= n < 2 ^ 1024 ->
     exists cats,
       categories_to_scrape v base_categories = Returns cats /\
       Forall2 (fun b c => c.1 = b.1 /\ cat_name c.2 = base_name b.2 /\
                           pages c.2 = n) base_categories cats) /\
  (forall v,
     (forall n, as_int v = Some n -> n < 1) ->
     exists cats,
       categories_to_scrape v base_categories = Returns cats /\
       Forall2 (fun b c => c.1 = b.1 /\ cat_name c.2 = base_name b.2 /\
                           pages c.2 = default_pages b.2) base_categories cats).
Proof.
  split.
  - intros v n Hv Hn. eexists. split.
    + apply categories_to_scrape_returns.
      eapply Forall_impl; [exact base_categories_pages|].
      intros b Hb. cbv beta in Hb |- *. rewrite (effective_pages_valid v n) by (assumption || lia). lia.
    + apply Forall2_fmap_r, Forall_Forall2_diag, Forall_forall.
      intros b _. simpl. rewrite (effective_pages_valid v n) by (assumption || lia). auto.
  - intros v Hv. eexists. split.
    + apply categories_to_scrape_returns.
      eapply Forall_impl; [exact base_categories_pages|].
      intros b Hb. cbv beta in Hb |- *. rewrite (effective_pages_invalid v) by assumption. lia.
    + apply Forall2_fmap_r, Forall_Forall2_diag, Forall_forall.
      intros b _. simpl. rewrite (effective_pages_invalid v) by assumption. auto.
Qed.

Lemma page_override_witness :
  (exists cats,
     categories_to_scrape (PyInt 2) base_categories = Returns cats /\
     Forall2 (fun b c => c.1 = b.1 /\ cat_name c.2 = base_name b.2 /\
                         pages c.2 = 2) base_categories cats) /\
  (exists cats,
     categories_to_scrape (PyStr "3") base_categories = Returns cats /\
     Forall2 (fun b c => c.1 = b.1 /\ cat_name c.2 = base_name b.2 /\
                         pages c.2 = default_pages b.2) base_categories cats).
Proof.
  split.
  - apply (proj1 page_override (PyInt 2) 2); [reflexivity|lia].
  - apply (proj2 page_override (PyStr "3")). intros n H. discriminate H.
Defined.

(** ** The page loop and the category loop *)

Section RunFacts.

Variable fetch : str -> Z -> fetched.

(** The page loop leaves [self.products] alone, never lowers the error
    counter, only appends to [category_products], and binds [page_num] as
    soon as it runs once. *)
Lemma scrape_pages_inv key name page_nums st :
  let st' := scrape_pages fetch key name page_nums st in
  products (pl_self st') = products (pl_self st) /\
  (errors_of (pl_self st) <= errors_of (pl_self st'))%nat /\
  category_products st `prefix_of` category_products st' /\
  (page_nums <> [] \/ page_num st <> None -> page_num st' <> None).
Proof.
  revert st. induction page_nums as [|n rest IH]; intros st; simpl.
  - split_and!; [reflexivity|lia|reflexivity|]. intros [H|H]; congruence.
  - destruct (fetch key n) as [|[|c cs]].
    + destruct (IH {| pl_self := count_error (pl_self st);
                      category_products := category_products st;
                      page_num := Some n |}) as (Hp & He & Hc & Hn).
      split_and!.
      * exact Hp.
      * unfold errors_of in *. simpl in He. lia.
      * exact Hc.
      * intros _. apply Hn. right. discriminate.
    + simpl. split_and!; [reflexivity|lia|reflexivity|]. intros _. discriminate.
    + match goal with |- context [scrape_pages _ _ _ _ ?s] =>
        destruct (IH s) as (Hp & He & Hc & Hn) end.
      split_and!.
      * exact Hp.
      * exact He.
      * etrans; [|exact Hc]. now apply prefix_app_r.
      * intros _. apply Hn. right. discriminate.
Qed.

Lemma page_range_nil pages_to_scrape :
  page_range pages_to_scrape = [] <-> pages_to_scrape < 1.
Proof.
  unfold page_range, seqZ. split.
  - intros H. apply (f_equal length) in H. rewrite length_fmap, length_seq in H.
    simpl in H. lia.
  - intros H. replace (Z.to_nat pages_to_scrape) with 0%nat by lia. reflexivity.
Qed.

(** [scrape_category] raises exactly when there is no page to scrape; it has
    then changed nothing and gathered nothing. *)
Lemma scrape_category_raises self key info self' e :
  scrape_category fetch self key info = (self', Raises e) <->
  pages info < 1 /\ self' = self /\ e = UnboundLocalError.
Proof.
  unfold scrape_category, run_pages.
  pose proof (scrape_pages_inv key (cat_name info) (page_range (pages info))
                {| pl_self := self; category_products := []; page_num := None |})
    as (_ & _ & _ & Hn).
  split.
  - destruct (page_num (scrape_pages _ _ _ _ _)) eqn:E; [discriminate|].
    destruct (page_range (pages info)) eqn:Er.
    + intros [= <- <-]. split; [now apply page_range_nil|]. simpl. auto.
    + exfalso. apply Hn; [left; discriminate|reflexivity].
  - intros (Hp & -> & ->). apply page_range_nil in Hp. rewrite Hp. reflexivity.
Qed.

Lemma scrape_category_inv self key info :
  let r := scrape_category fetch self key info in
  products self `prefix_of` products r.1 /\
  (errors_of self <= errors_of r.1)%nat.
Proof.
  unfold scrape_category, run_pages.
  pose proof (scrape_pages_inv key (cat_name info) (page_range (pages info))
                {| pl_self := self; category_products := []; page_num := None |})
    as (Hp & He & _ & _).
  simpl in *. destruct (page_num _); simpl.
  - split; [|exact He]. rewrite Hp. now apply prefix_app_r.
  - rewrite Hp. split; [reflexivity|exact He].
Qed.

(** The record collection is append-only and the error counter never goes
    down over the categories. *)
Lemma run_categories_inv cats self :
  products self `prefix_of` products (run_categories fetch cats self) /\
  (errors_of self <= errors_of (run_categories fetch cats self))%nat.
Proof.
  revert self. induction cats as [|[key info] rest IH]; intros self; simpl.
  - split; [reflexivity|lia].
  - pose proof (scrape_category_inv self key info) as (Hp & He).
    destruct (scrape_category fetch self key info) as [self' [[]|e]]; simpl in *.
    + destruct (IH (count_category self')) as (Hp' & He').
      split; [etrans; [exact Hp|exact Hp']|].
      unfold errors_of in *. simpl in He'. lia.
    + destruct (IH (count_error self')) as (Hp' & He').
      split; [etrans; [exact Hp|exact Hp']|].
      unfold errors_of in *. simpl in He'. lia.
Qed.


End RunFacts.


(** ** Three runs *)

(** C1 on the code: in a run with the default page counts over [two_pages],
    two records are accepted and both get the identifier JUM_0001; the count
    [len(self.products)] does not move between the pages of a category. *)
Theorem identifiers_repeat_across_pages :
  exists self,
    scrape_all_categories two_pages init PyNone = (self, Returns tt) /\
    map product_name (products self)
      = ["HP Pavilion 15" : str; "Dell Vostro" : str] /\
    map product_id (products self) = ["JUM_0001" : str; "JUM_0001" : str].
Proof.
  eexists. split; [vm_compute; reflexivity|]. split; reflexivity.
Qed.

(** C2 on the code: the category yields two records and counts no error,
    and the page recorded for it is 2, the page on which the loop broke. *)
Theorem early_stop_records_empty_page :
  exists self,
    scrape_category end_of_results init "jeux-videos-consoles" gaming_two_pages
      = (self, Returns tt) /\
    map product_id (products self) = ["JUM_0001" : str; "JUM_0002" : str] /\
    categories_scraped self !! ("jeux-videos-consoles" : str)
      = Some {| cr_name := "Gaming"; products_found := 2; pages_scraped := 2 |} /\
    errors (scraping_stats self) = 0%nat /\
    stats_pages_scraped (scraping_stats self) = 1%nat.
Proof.
  eexists. split; [vm_compute; reflexivity|]. repeat split; reflexivity.
Qed.

Lemma extract_url c key name idx r :
  extract_product_data c key name idx = Some r ->
  url r =
  match link_elem c with
  | Some (Some href) => if bool_decide (href = []) then [] else site_root ++ href
  | _ => []
  end.
Proof.
  unfold extract_product_data.
  destruct (detached c); [discriminate|].
  destruct (_ =? 0)%float; [discriminate|].
  intros [= <-]. unfold url. destruct (link_elem c) as [[[|a href]|]|]; reflexivity.
Qed.

(** C4 on the code: the site root is put before every link that is not
    empty, also before one that does not start with a slash. *)
Theorem absolute_link_gets_prefixed :
  (forall c key name idx r,
     extract_product_data c key name idx = Some r ->
     url r =
     match link_elem c with
     | Some (Some href) => if bool_decide (href = []) then [] else site_root ++ href
     | _ => []
     end) /\
  (exists r,
     extract_product_data
       (listing "HP Pavilion 15" "3,499.00 Dhs"
          (Some ("https://www.jumia.ma/hp-15.html" : str)))
       "ordinateurs-pc" "Laptops & Computers" 1 = Some r /\
     url r = "https://www.jumia.mahttps://www.jumia.ma/hp-15.html").
Proof.
  split; [exact extract_url|].
  eexists. split; [vm_compute; reflexivity|reflexivity].
Qed.

(** * Further properties *)

(** ** Accepted and rejected containers *)

Lemma clean_price_number s : is_number (clean_price s).
Proof. exact (leb_number_r _ _ (clean_price_nonneg s)). Qed.

Lemma cleaned_original_nonneg c : (0 <=? cleaned_original c)%float = true.
Proof. apply clean_price_nonneg. Qed.

Lemma cleaned_current_nonneg c : (0 <=? cleaned_current c)%float = true.
Proof. apply clean_price_nonneg. Qed.

Lemma extract_product_data_None c key name idx :
  extract_product_data c key name idx = None <->
  detached c = true \/ (cleaned_current c =? 0)%float = true.
Proof.
  unfold extract_product_data, cleaned_current.
  destruct (detached c).
  - split; auto.
  - destruct (_ =? 0)%float.
    + split; auto.
    + split; [discriminate|]. intros [H|H]; discriminate H.
Qed.

Lemma extract_product_data_Some c key name idx r :
  extract_product_data c key name idx = Some r ->
  detached c = false /\ (cleaned_current c =? 0)%float = false /\
  r = {| product_id := product_id_of idx;
         product_name := shown_name c;
         brand := extract_brand (shown_name c) key;
         model := extract_model (shown_name c) (extract_brand (shown_name c) key);
         category := name;
         category_key := key;
         current_price := cleaned_current c;
         original_price :=
           if (0 <? cleaned_original c)%float then Some (cleaned_original c) else None;
         discount_percent := calculate_discount (cleaned_current c) (cleaned_original c);
         price_tier := classify_price_tier (cleaned_current c) key;
         value_score :=
           calculate_value_score (cleaned_current c) (cleaned_original c)
             (calculate_discount (cleaned_current c) (cleaned_original c));
         is_on_sale :=
           (0 <? calculate_discount (cleaned_current c) (cleaned_original c))%float;
         url :=
           match link_elem c with
           | Some (Some href) => match href with [] => [] | _ => site_root ++ href end
           | _ => []
           end |}.
Proof.
  unfold extract_product_data, cleaned_current, cleaned_original, shown_name.
  destruct (detached c); [discriminate|].
  destruct (_ =? 0)%float; [discriminate|].
  intros [= <-]. auto.
Qed.

Lemma zero_ltb_of_nonneg x :
  (0 <=? x)%float = true -> (x =? 0)%float = false -> (0 <? x)%float = true.
Proof.
  intros Hle Hne. destruct (0 <? x)%float eqn:E; [reflexivity|].
  rewrite (leb_not_ltb_eqb _ _ Hle E) in Hne. discriminate Hne.
Qed.


Lemma calculate_discount_positive c o :
  (0 <? calculate_discount c o)%float = true ->
  (o =? 0)%float = false /\ (o <=? c)%float = false.
Proof.
  unfold calculate_discount.
  destruct (o =? 0)%float; [intros H; discriminate H|].
  destruct (o <=? c)%float; [intros H; discriminate H|]. auto.
Qed.

Lemma on_sale_above_current c key name idx r :
  extract_product_data c key name idx = Some r ->
  is_on_sale r = true ->
  exists o, original_price r = Some o /\ (current_price r <? o)%float = true.
Proof.
  intros (_ & _ & ->)%extract_product_data_Some.
  cbn [original_price current_price is_on_sale].
  intros (Hz & Hle)%calculate_discount_positive.
  exists (cleaned_original c).
  rewrite (zero_ltb_of_nonneg _ (cleaned_original_nonneg c) Hz).
  split; [reflexivity|].
  rewrite leb_ltb_flip in Hle
    by (eapply leb_number_r; (apply cleaned_original_nonneg || apply cleaned_current_nonneg)).
  now apply negb_false_iff in Hle.
Qed.

Lemma slight_markdown_accepted :
  exists r,
    extract_product_data slight_markdown "tv-home-cinema-lecteurs" "Televisions" 1
    = Some r /\
    original_price r = Some 100000%float /\
    current_price r = 99999%float /\
    discount_percent r = 0%float /\
    is_on_sale r = false.
Proof. eexists. split; [vm_compute; reflexivity|]. repeat split. Qed.

(** X3. A record flagged on sale carries an original price above its
    current price, and a record without original price has discount 0.0 and
    is not on sale.  The converse of the first part fails: a markdown below
    0.005 percent rounds to a discount of 0.0 and the record is not on
    sale. *)
Theorem on_sale_needs_markdown :
  (forall c key name idx r,
     extract_product_data c key name idx = Some r ->
     is_on_sale r = true ->
     exists o, original_price r = Some o /\ (current_price r <? o)%float = true) /\
  (forall c key name idx r,
     extract_product_data c key name idx = Some r ->
     original_price r = None ->
     discount_percent r = 0%float /\ is_on_sale r = false) /\
  (exists c key name idx r o,
     extract_product_data c key name idx = Some r /\
     original_price r = Some o /\ (current_price r <? o)%float = true /\
     is_on_sale r = false).
Proof.
  split_and!.
  - exact on_sale_above_current.
  - intros c key name idx r (_ & _ & ->)%extract_product_data_Some.
    cbn [original_price discount_percent is_on_sale].
    destruct (0 <? cleaned_original c)%float eqn:E; [discriminate|]. intros _.
    unfold calculate_discount.
    rewrite (leb_not_ltb_eqb _ _ (cleaned_original_nonneg c) E). simpl. auto.
  - destruct slight_markdown_accepted as (r & H & Ho & Hc & _ & Hs).
    exists slight_markdown, ("tv-home-cinema-lecteurs" : str), ("Televisions" : str), 1%nat, r, 100000%float.
    split_and!; [exact H|exact Ho| |exact Hs].
    rewrite Hc. reflexivity.
Qed.

(** ** [extract_brand] *)












Lemma upper_char_idem c : upper_char (upper_char c) = upper_char c.
Proof.
  destruct c as [[] [] [] [] [] [] [] []]; vm_compute; reflexivity.
Qed.

Lemma upper_idem s : upper (upper s) = upper s.
Proof.
  unfold upper. rewrite map_map. apply map_ext. intros c. apply upper_char_idem.
Qed.

Lemma extract_brand_found name key :
  existsb (occurs_in name) (brands_to_check key) = true ->
  find (occurs_in name) (brands_to_check key) = Some (extract_brand name key).
Proof.
  unfold extract_brand.
  change (fun brand => contains (upper brand) (upper name)) with (occurs_in name).
  induction (brands_to_check key) as [|b l IH]; simpl; [discriminate|].
  destruct (occurs_in name b); [reflexivity|]. simpl. exact IH.
Qed.

(** X5. When a listed brand occurs in the name, the brand found does not
    depend on the case of the letters of the name, and it is spelled as
    listed. *)
Theorem extract_brand_ignores_case name name' key :
  upper name = upper name' ->
  existsb (occurs_in name) (brands_to_check key) = true ->
  extract_brand name' key = extract_brand name key /\
  extract_brand (upper name) key = extract_brand name key /\
  extract_brand name key ∈ brands_to_check key.
Proof.
  intros Hu Hex.
  assert (Hocc : forall n, upper n = upper name -> occurs_in n = occurs_in name).
  { intros n Hn. unfold occurs_in. now rewrite Hn. }
  pose proof (extract_brand_found name key Hex) as Hf.
  assert (Hsame : forall n, upper n = upper name ->
                    extract_brand n key = extract_brand name key).
  { intros n Hn.
    assert (Hex' : existsb (occurs_in n) (brands_to_check key) = true)
      by now rewrite (Hocc n Hn).
    pose proof (extract_brand_found n key Hex') as Hf'.
    rewrite (Hocc n Hn), Hf in Hf'. now inversion Hf'. }
  split_and!.
  - apply Hsame. now symmetry.
  - apply Hsame. apply upper_idem.
  - apply find_some in Hf as [Hin _]. now apply list_elem_of_In.
Qed.

Lemma extract_brand_ignores_case_witness :
  upper "hp pavilion 15" = upper "Hp PAVILION 15" /\
  extract_brand "Hp PAVILION 15" "ordinateurs-pc" = "HP" /\
  extract_brand "hp pavilion 15" "ordinateurs-pc" = "HP".
Proof.
  assert (Hu : upper "hp pavilion 15" = upper "Hp PAVILION 15") by reflexivity.
  split; [exact Hu|].
  destruct (extract_brand_ignores_case "hp pavilion 15" "Hp PAVILION 15"
              "ordinateurs-pc" Hu eq_refl) as (H & _ & _).
  split; [|reflexivity]. rewrite H. reflexivity.
Defined.

(** ** The length of the model *)

Lemma lstrip_length s : (length (lstrip s) <= length s)%nat.
Proof.
  induction s as [|c s IH]; simpl; [lia|]. destruct (is_space c); simpl; lia.
Qed.

Lemma strip_length s : (length (strip s) <= length s)%nat.
Proof.
  unfold strip, rstrip. rewrite length_rev.
  pose proof (lstrip_length (rev (lstrip s))) as H. rewrite length_rev in H.
  pose proof (lstrip_length s). lia.
Qed.

Lemma remove_scan_length old k s :
  (length (remove_scan old k s) + Nat.min k (length s) <= length s)%nat.
Proof.
  revert k. induction s as [|c s IH]; intros k; simpl; [lia|].
  destruct k as [|k].
  - destruct (startswith old (c :: s)).
    + specialize (IH (pred (length old))). lia.
    + specialize (IH 0%nat). simpl. lia.
  - specialize (IH k). lia.
Qed.

Lemma remove_all_length old s : (length (remove_all old s) <= length s)%nat.
Proof.
  unfold remove_all. destruct old; [lia|].
  pose proof (remove_scan_length (a :: old) 0 s). lia.
Qed.

(** Removing a word that occurs shortens the text by the word at least. *)
Lemma remove_all_occurring old s :
  contains old s = true ->
  (length (remove_all old s) + length old <= length s)%nat.
Proof.
  unfold remove_all. destruct old as [|a old].
  - simpl. lia.
  - assert (Hw : (0 < length (a :: old))%nat) by (cbn [length]; lia).
    revert Hw. generalize (a :: old). clear a old. intros w Hw.
    induction s as [|c s IH]; cbn [contains remove_scan].
    + destruct w; [simpl in Hw; lia|discriminate].
    + destruct (startswith w (c :: s)) eqn:E; cbn [orb].
      * intros _. apply startswith_length in E.
        pose proof (remove_scan_length w (pred (length w)) s) as Hl.
        cbn [length] in *. lia.
      * intros H. specialize (IH H). cbn [length]. lia.
Qed.

Lemma remove_word_length m w : (length (remove_word m w) <= length m)%nat.
Proof.
  unfold remove_word.
  pose proof (remove_all_length (lower w) (remove_all (upper w) (remove_all w m))).
  pose proof (remove_all_length (upper w) (remove_all w m)).
  pose proof (remove_all_length w m). lia.
Qed.

Lemma fold_remove_word_length ws m :
  (length (fold_left remove_word ws m) <= length m)%nat.
Proof.
  revert m. induction ws as [|w ws IH]; intros m; simpl; [lia|].
  specialize (IH (remove_word m w)). pose proof (remove_word_length m w). lia.
Qed.

Lemma lstrip_idem s : lstrip (lstrip s) = lstrip s.
Proof.
  induction s as [|c s IH]; simpl; [reflexivity|].
  destruct (is_space c) eqn:E; [exact IH|]. simpl. now rewrite E.
Qed.

Lemma lstrip_fixed_take n s : lstrip s = s -> lstrip (take n s) = take n s.
Proof.
  destruct s as [|c s]; [now rewrite take_nil|]. destruct n; [reflexivity|].
  simpl. destruct (is_space c) eqn:E; [|reflexivity].
  intros H. pose proof (lstrip_length s) as Hl. rewrite H in Hl. simpl in Hl. lia.
Qed.

Lemma lstrip_strip s : lstrip (strip s) = strip s.
Proof.
  destruct (strip_split (strip s)) as (ws1 & ws2 & H1 & H2 & E).
  unfold strip at 2. unfold strip.
  destruct (lstrip s) as [|c t] eqn:El; [reflexivity|].
  assert (Hc : is_space c = false).
  { pose proof (lstrip_idem s) as Hi. rewrite El in Hi. simpl in Hi.
    destruct (is_space c); [|reflexivity].
    pose proof (lstrip_length t) as Hl. rewrite Hi in Hl. simpl in Hl. lia. }
  destruct (rstrip_split (c :: t)) as (ws & Hws & Er).
  destruct (rstrip (c :: t)) as [|d r] eqn:Ed.
  - reflexivity.
  - simpl in Er. inversion Er; subst d. simpl. now rewrite Hc.
Qed.

(** X6. The model has at most 100 characters and is never longer than the
    name; when the brand (not "Unknown") occurs in the name, the model is
    shorter than the name by the length of the brand at least, and it does
    not start with white space. *)
Theorem extract_model_length name brand :
  (length (extract_model name brand) <= 100)%nat /\
  (length (extract_model name brand) <= length name)%nat /\
  (brand <> ("Unknown" : str) -> contains brand name = true ->
   (length (extract_model name brand) + length brand <= length name)%nat /\
   lstrip (extract_model name brand) = extract_model name brand).
Proof.
  unfold extract_model.
  destruct (bool_decide (brand = "Unknown")) eqn:Eb; cbn [orb].
  - rewrite length_take. split_and!; [lia|lia|].
    apply bool_decide_eq_true in Eb. congruence.
  - destruct (contains brand name) eqn:Ec; cbn [negb].
    + pose proof (remove_all_occurring brand name Ec) as H1.
      pose proof (strip_length (remove_all brand name)) as H2.
      pose proof (fold_remove_word_length common_words
                    (strip (remove_all brand name))) as H3.
      pose proof (strip_length (fold_left remove_word common_words
                                  (strip (remove_all brand name)))) as H4.
      rewrite length_take. split_and!; [lia|lia|].
      intros _ _. split; [lia|]. apply lstrip_fixed_take, lstrip_strip.
    + rewrite length_take. split_and!; [lia|lia|]. intros _ H. discriminate H.
Qed.

(** ** Identifiers *)

(** *** Decimal numerals *)

Lemma digits_value_uint d acc :
  digits_value (Z.of_nat acc) (list_ascii_of_string (NilEmpty.string_of_uint d))
  = Some (Z.of_nat (Nat.of_uint_acc d acc)).
Proof.
  revert acc.
  induction d as [|d IH|d IH|d IH|d IH|d IH|d IH|d IH|d IH|d IH|d IH]; intros acc;
    [reflexivity|..];
    cbn [NilEmpty.string_of_uint list_ascii_of_string digits_value Nat.of_uint_acc];
    match goal with
    | |- context [is_digit ?c] => change (is_digit c) with true; cbv iota
    end;
    rewrite <- IH; f_equal; rewrite Nat.tail_mul_spec;
    match goal with
    | |- context [N_of_ascii ?c] =>
        let v := eval vm_compute in (Z.of_N (N_of_ascii c - 48)) in
        change (Z.of_N (N_of_ascii c - 48)) with v
    end; lia.
Qed.

Lemma digits_value_to_uint n :
  digits_value 0 (list_ascii_of_string (NilZero.string_of_uint (Nat.to_uint n)))
  = Some (Z.of_nat n).
Proof.
  rewrite <- (DecimalNat.Unsigned.of_to n) at 2. unfold Nat.of_uint.
  rewrite <- digits_value_uint. unfold NilZero.string_of_uint.
  destruct (Nat.to_uint n) eqn:E; try reflexivity.
Qed.

Lemma digits_value_zeros k s :
  digits_value 0 (repeat "0"%char k ++ s) = digits_value 0 s.
Proof. induction k as [|k IH]; [reflexivity|exact IH]. Qed.

Lemma format_04d_value n : digits_value 0 (format_04d n) = Some (Z.of_nat n).
Proof.
  unfold format_04d. rewrite digits_value_zeros. apply digits_value_to_uint.
Qed.

Lemma length_string_of_uint d :
  length (list_ascii_of_string (NilEmpty.string_of_uint d)) = Decimal.nb_digits d.
Proof.
  induction d; cbn [NilEmpty.string_of_uint list_ascii_of_string length Decimal.nb_digits];
    congruence.
Qed.

Lemma of_uint_acc_lower d acc :
  (acc * 10 ^ Decimal.nb_digits d <= Nat.of_uint_acc d acc)%nat.
Proof.
  revert acc.
  induction d as [|d IH|d IH|d IH|d IH|d IH|d IH|d IH|d IH|d IH|d IH]; intros acc;
    cbn [Nat.of_uint_acc Decimal.nb_digits]; [simpl; lia|..];
    (etrans; [|apply IH]); rewrite Nat.tail_mul_spec, Nat.pow_succ_r';
    generalize (10 ^ Decimal.nb_digits d)%nat; intros p; nia.
Qed.

(** A number below [10 ^ k] is written with [k] digits at most. *)
Lemma to_uint_digits n k :
  (1 <= k)%nat -> (n < 10 ^ k)%nat -> (Decimal.nb_digits (Nat.to_uint n) <= k)%nat.
Proof.
  intros Hk Hn.
  pose proof (DecimalNat.Unsigned.to_of (Nat.to_uint n)) as Hnorm.
  rewrite DecimalNat.Unsigned.of_to in Hnorm.
  pose proof (DecimalNat.Unsigned.of_to n) as Hval. unfold Nat.of_uint in Hval.
  assert (Hlead : forall d j, (1 <= j)%nat ->
            Nat.of_uint_acc d j = n -> (S (Decimal.nb_digits d) <= k)%nat).
  { intros d j Hj E. pose proof (of_uint_acc_lower d j) as Hl. rewrite E in Hl.
    change (Decimal.nb_digits d < k)%nat. apply (Nat.pow_lt_mono_r_iff 10); [lia|].
    eapply Nat.le_lt_trans; [|exact Hn]. nia. }
  destruct (Nat.to_uint n) as [|d|d|d|d|d|d|d|d|d|d] eqn:E;
    cbn [Decimal.nb_digits]; [lia| |eapply Hlead; [|exact Hval]; lia..].
  unfold Decimal.unorm in Hnorm. cbn [Decimal.nzhead] in Hnorm.
  destruct (Decimal.nzhead d) eqn:Ez;
    try (exfalso; revert Hnorm; discriminate).
  - inversion Hnorm; subst d. simpl. lia.
  - exfalso. inversion Hnorm; subst. exact (DecimalFacts.nzhead_nonzero _ _ Ez).
Qed.

Lemma format_04d_length n :
  (4 <= length (format_04d n))%nat /\
  ((n < 10 ^ 4)%nat -> length (format_04d n) = 4%nat).
Proof.
  unfold format_04d. rewrite length_app, repeat_length.
  split; [lia|]. intros Hn.
  assert (Hl : (length (list_ascii_of_string
                          (NilZero.string_of_uint (Nat.to_uint n))) <= 4)%nat).
  { pose proof (to_uint_digits n 4 ltac:(lia) Hn) as Hd.
    unfold NilZero.string_of_uint.
    destruct (Nat.to_uint n) eqn:E; try (rewrite length_string_of_uint; exact Hd).
    simpl. lia. }
  lia.
Qed.

Lemma product_id_of_index n : index_of_id (product_id_of n) = Some (Z.of_nat n).
Proof.
  unfold index_of_id, product_id_of. cbn [startswith list_ascii_of_string app].
  rewrite !bool_decide_eq_true_2 by reflexivity. cbn [andb drop].
  apply format_04d_value.
Qed.

Lemma product_id_of_inj n m : product_id_of n = product_id_of m -> n = m.
Proof.
  intros H. apply (f_equal index_of_id) in H.
  rewrite !product_id_of_index in H. injection H. lia.
Qed.

(** X7. The number of an identifier can be read back from it, so different
    numbers give different identifiers; an identifier has 8 characters at
    least, and exactly 8 for a number below 10000. *)
Theorem product_id_round_trip n :
  index_of_id (product_id_of n) = Some (Z.of_nat n) /\
  (forall m, product_id_of n = product_id_of m -> n = m) /\
  (8 <= length (product_id_of n))%nat /\
  ((n < 10 ^ 4)%nat -> length (product_id_of n) = 8%nat).
Proof.
  pose proof (format_04d_length n) as (H4 & Hlt).
  split_and!.
  - apply product_id_of_index.
  - apply product_id_of_inj.
  - unfold product_id_of. rewrite length_app. simpl length at 1. lia.
  - intros Hn. unfold product_id_of. rewrite length_app, (Hlt Hn). reflexivity.
Qed.

(** ** [process_products] *)

Lemma process_products_from self cs key name acc :
  fold_left
    (fun page_products c =>
       match
         extract_product_data c key name
           (length (products self) + length page_products + 1)%nat
       with
       | Some product_data => page_products ++ [product_data]
       | None => page_products
       end) cs acc
  = acc ++ page_records (length (products self) + length acc + 1) cs key name.
Proof.
  revert acc. induction cs as [|c cs IH]; intros acc; cbn [fold_left page_records].
  - now rewrite app_nil_r.
  - destruct (extract_product_data c key name _) as [p|].
    + rewrite IH, <- app_assoc, length_app. cbn [length app].
      now replace (length (products self) + (length acc + 1) + 1)%nat
        with (S (length (products self) + length acc + 1)) by lia.
    + apply IH.
Qed.

Lemma process_products_records self cs key name :
  process_products self cs key name
  = page_records (S (length (products self))) cs key name.
Proof.
  unfold process_products. rewrite process_products_from. cbn [app length].
  now replace (length (products self) + 0 + 1)%nat
    with (S (length (products self))) by lia.
Qed.

Lemma extract_product_data_id c key name idx r :
  extract_product_data c key name idx = Some r ->
  product_id r = product_id_of idx /\ category_key r = key /\ category r = name.
Proof.
  unfold extract_product_data.
  destruct (detached c); [discriminate|].
  destruct (_ =? 0)%float; [discriminate|].
  intros [= <-]. auto.
Qed.

Lemma extract_product_data_index c key name i j :
  extract_product_data c key name i = None <->
  extract_product_data c key name j = None.
Proof.
  unfold extract_product_data.
  destruct (detached c); [tauto|].
  destruct (_ =? 0)%float; [tauto|]. split; discriminate.
Qed.

Lemma extract_product_data_accepted c key name idx :
  accepted c = true <-> exists r, extract_product_data c key name idx = Some r.
Proof.
  unfold extract_product_data, accepted, cleaned_current.
  destruct (detached c); cbn [negb andb].
  - split; [discriminate|]. intros [r H]. discriminate H.
  - destruct (_ =? 0)%float; cbn [negb].
    + split; [discriminate|]. intros [r H]. discriminate H.
    + split; [eauto|reflexivity].
Qed.

Lemma page_records_ids next cs key name :
  map product_id (page_records next cs key name)
  = map product_id_of (seq next (length (page_records next cs key name))).
Proof.
  revert next. induction cs as [|c cs IH]; intros next; cbn [page_records].
  - reflexivity.
  - destruct (extract_product_data c key name next) as [p|] eqn:E.
    + cbn [map length seq]. apply extract_product_data_id in E as (-> & _).
      now rewrite IH.
    + apply IH.
Qed.

Lemma page_records_accepted next cs key name :
  Forall2 (fun c p => exists idx, extract_product_data c key name idx = Some p)
    (List.filter accepted cs) (page_records next cs key name).
Proof.
  revert next. induction cs as [|c cs IH]; intros next;
    cbn [page_records List.filter]; [constructor|].
  destruct (extract_product_data c key name next) as [p|] eqn:E.
  - rewrite (proj2 (extract_product_data_accepted c key name next)) by eauto.
    constructor; eauto.
  - destruct (accepted c) eqn:Ea; [|apply IH].
    apply (extract_product_data_accepted c key name next) in Ea as [r Hr].
    congruence.
Qed.

Lemma page_records_category next cs key name :
  Forall (fun p => category_key p = key /\ category p = name)
    (page_records next cs key name).
Proof.
  pose proof (page_records_accepted next cs key name) as H.
  induction H as [|c p l ps [idx Hp] _ IH]; constructor; [|exact IH].
  apply extract_product_data_id in Hp as (_ & Hk & Hn). auto.
Qed.

Lemma NoDup_product_ids next k : NoDup (map product_id_of (seq next k)).
Proof.
  apply NoDup_fmap_2; [|apply NoDup_seq].
  intros n m. apply product_id_of_inj.
Qed.

(** X8. Within one page the records are numbered consecutively from
    [len(self.products) + 1], so their identifiers are pairwise distinct. *)
Theorem page_identifiers_distinct
  (self : scraper) (product_containers : list container) (key name : str) :
  map product_id (process_products self product_containers key name)
  = map product_id_of
      (seq (S (length (products self)))
         (length (process_products self product_containers key name))) /\
  NoDup (map product_id (process_products self product_containers key name)).
Proof.
  rewrite process_products_records.
  pose proof (page_records_ids (S (length (products self)))
                product_containers key name) as H.
  split; [exact H|]. rewrite H. apply NoDup_product_ids.
Qed.

(** X9. [process_products] returns, in page order, one record for each
    accepted container and nothing else: never more records than
    containers, each with the category key and name it was given. *)
Theorem process_products_keeps_accepted
  (self : scraper) (product_containers : list container) (key name : str) :
  Forall2 (fun c p => exists idx, extract_product_data c key name idx = Some p)
    (List.filter accepted product_containers)
    (process_products self product_containers key name) /\
  (length (process_products self product_containers key name)
   <= length product_containers)%nat /\
  Forall (fun p => category_key p = key /\ category p = name)
    (process_products self product_containers key name).
Proof.
  rewrite process_products_records.
  pose proof (page_records_accepted (S (length (products self)))
                product_containers key name) as H.
  split_and!.
  - exact H.
  - rewrite <- (Forall2_length _ _ _ H). apply List.filter_length_le.
  - apply page_records_category.
Qed.

(** ** The page loop in closed form *)

Lemma add_counts_0 self : add_counts self 0 0 = self.
Proof.
  destruct self as [ps cs [t c p e] cats]. unfold add_counts. simpl.
  now rewrite !Nat.add_0_r.
Qed.

Lemma add_counts_error self a e :
  add_counts (count_error self) a e = add_counts self a (S e).
Proof.
  unfold add_counts, count_error. simpl. do 2 f_equal. lia.
Qed.

Lemma add_counts_page self a e :
  add_counts (count_page self) a e = add_counts self (S a) e.
Proof.
  unfold add_counts, count_page. simpl. do 2 f_equal. lia.
Qed.

Section PageLoop.

Variable fetch : str -> Z -> fetched.

(** The page loop in closed form: it visits the pages before the first empty
    one. *)
Lemma scrape_pages_visits key name page_nums st :
  exists visited rest,
    page_nums = visited ++ rest /\
    Forall (fun m => empty fetch key m = false) visited /\
    (match rest with
     | [] => page_num (scrape_pages fetch key name page_nums st)
             = from_option Some (page_num st) (last visited)
     | n :: _ => empty fetch key n = true /\
                 page_num (scrape_pages fetch key name page_nums st) = Some n
     end) /\
    pl_self (scrape_pages fetch key name page_nums st)
    = add_counts (pl_self st)
        (length (List.filter (loaded fetch key) visited))
        (length (List.filter (failing fetch key) visited)) /\
    category_products (scrape_pages fetch key name page_nums st)
    = category_products st
      ++ flat_map (page_yield fetch (pl_self st) key name) visited.
Proof.
  revert st. induction page_nums as [|n nums IH]; intros st.
  - exists [], []. cbn. rewrite add_counts_0, app_nil_r. auto.
  - cbn [scrape_pages].
    destruct (fetch key n) as [|[|c cs]] eqn:E.
    + destruct (IH {| pl_self := count_error (pl_self st);
                      category_products := category_products st;
                      page_num := Some n |})
        as (visited & rest & -> & Hv & Hr & Hs & Hc).
      exists (n :: visited), rest. split_and!.
      * reflexivity.
      * constructor; [unfold empty; now rewrite E|exact Hv].
      * destruct rest; [|exact Hr]. rewrite Hr, last_cons. cbn [page_num].
        destruct (last visited); reflexivity.
      * rewrite Hs. cbn [pl_self List.filter]. unfold loaded, failing.
        rewrite E. cbn [is_failure negb length]. apply add_counts_error.
      * rewrite Hc. cbn [category_products flat_map pl_self].
        unfold page_yield at 2. rewrite E. reflexivity.
    + exists [], (n :: nums). cbn. rewrite add_counts_0, app_nil_r.
      unfold empty. rewrite E. auto.
    + destruct (IH {| pl_self := count_page (pl_self st);
                      category_products :=
                        category_products st
                        ++ process_products (pl_self st) (c :: cs) key name;
                      page_num := Some n |})
        as (visited & rest & -> & Hv & Hr & Hs & Hc).
      exists (n :: visited), rest. split_and!.
      * reflexivity.
      * constructor; [unfold empty; now rewrite E|exact Hv].
      * destruct rest; [|exact Hr]. rewrite Hr, last_cons. cbn [page_num].
        destruct (last visited); reflexivity.
      * rewrite Hs. cbn [pl_self List.filter]. unfold loaded, failing.
        rewrite E. cbn [is_failure negb length]. apply add_counts_page.
      * rewrite Hc. cbn [category_products flat_map pl_self].
        unfold page_yield at 2. rewrite E, process_products_records.
        now rewrite <- app_assoc.
Qed.


Lemma seqZ_split p visited rest :
  seqZ 1 p = visited ++ rest ->
  visited = seqZ 1 (Z.of_nat (length visited)) /\
  rest = seqZ (1 + Z.of_nat (length visited)) (p - Z.of_nat (length visited)) /\
  Z.of_nat (length visited) <= Z.max 0 p.
Proof.
  intros H. pose proof (f_equal length H) as Hl.
  rewrite length_seqZ, length_app in Hl.
  destruct (Z.le_gt_cases p 0) as [Hp|Hp].
  - rewrite seqZ_nil in H by exact Hp.
    symmetry in H. apply app_eq_nil in H as [-> ->]. cbn [length].
    split_and!; [reflexivity|symmetry; apply seqZ_nil; lia|lia].
  - replace p with (Z.of_nat (length visited) + (p - Z.of_nat (length visited)))
      in H at 1 by lia.
    rewrite seqZ_app in H by lia.
    apply app_inj_1 in H as [H1 H2]; [|rewrite length_seqZ; lia].
    split_and!; [now symmetry|now symmetry|lia].
Qed.

Lemma last_seqZ p : 1 <= p -> last (seqZ 1 p) = Some p.
Proof.
  intros Hp. rewrite last_lookup, length_seqZ.
  rewrite lookup_seqZ. split; [|lia].
  replace (Z.of_nat (Nat.pred (Z.to_nat p))) with (p - 1) by lia. lia.
Qed.

(** [scrape_category] in closed form. *)
Lemma scrape_category_form self key info self' :
  scrape_category fetch self key info = (self', Returns tt) ->
  exists page,
    1 <= page <= pages info /\
    (forall m, 1 <= m < page -> empty fetch key m = false) /\
    (page < pages info -> empty fetch key page = true) /\
    self' =
    store_category
      (add_counts self
         (length (List.filter (loaded fetch key)
                    (seqZ 1 (if empty fetch key page then page - 1 else page))))
         (length (List.filter (failing fetch key)
                    (seqZ 1 (if empty fetch key page then page - 1 else page)))))
      key (cat_name info)
      (flat_map (page_yield fetch self key (cat_name info))
         (seqZ 1 (if empty fetch key page then page - 1 else page)))
      page.
Proof.
  unfold scrape_category, run_pages, page_range.
  destruct (scrape_pages_visits key (cat_name info) (seqZ 1 (pages info))
              {| pl_self := self; category_products := []; page_num := None |})
    as (visited & rest & Hsplit & Hv & Hr & Hs & Hc).
  cbn [pl_self category_products page_num app] in Hr, Hs, Hc.
  apply seqZ_split in Hsplit as (Evis & Erest & Hk).
  set (k := Z.of_nat (length visited)) in *.
  destruct (page_num (scrape_pages _ _ _ _ _)) as [n|] eqn:En; [|discriminate].
  intros [= <-]. exists n.
  assert (Hbefore : forall m, 1 <= m < 1 + k -> empty fetch key m = false).
  { intros m Hm. rewrite Forall_forall in Hv. apply Hv.
    rewrite Evis. apply elem_of_seqZ. lia. }
  destruct rest as [|n' rest'].
  - (* every page was visited *)
    symmetry in Erest. apply (f_equal length) in Erest.
    rewrite length_seqZ in Erest. cbn [length] in Erest.
    destruct visited as [|v vs] eqn:Ev; [discriminate Hr|]. rewrite <- Ev in *.
    assert (Hp : k = pages info /\ 1 <= k).
    { subst k. rewrite Ev in *. cbn [length] in *. lia. }
    destruct Hp as [Hkp Hk1].
    assert (n = k) as ->.
    { rewrite Evis, last_seqZ in Hr by lia. cbn in Hr. congruence. }
    rewrite (Hbefore k) by lia. rewrite <- Evis, Hs, Hc.
    split_and!; [lia|lia|intros m Hm; apply Hbefore; lia|lia|reflexivity].
  - (* the loop broke on page n *)
    destruct Hr as [Hempty [= <-]].
    assert (Hn : n = 1 + k /\ 1 + k <= pages info).
    { assert (Hin : n ∈ seqZ (1 + k) (pages info - k))
        by (rewrite <- Erest; left).
      apply elem_of_seqZ in Hin.
      assert (Hne : 0 < pages info - k) by lia.
      rewrite seqZ_cons in Erest by exact Hne. inversion Erest. lia. }
    destruct Hn as [-> Hle]. rewrite Hempty.
    replace (1 + k - 1) with k by lia. rewrite <- Evis, Hs, Hc.
    split_and!; [lia|lia|exact Hbefore|auto|reflexivity].
Qed.

End PageLoop.

(** ** What a category leaves behind *)

Section CategoryFacts.

Variable fetch : str -> Z -> fetched.

Lemma flat_map_page_yield_category self key name l :
  Forall (fun p => category_key p = key /\ category p = name)
    (flat_map (page_yield fetch self key name) l).
Proof.
  induction l as [|m l IH]; cbn [flat_map]; [constructor|].
  apply Forall_app. split; [|exact IH].
  unfold page_yield. destruct (fetch key m); [constructor|].
  apply page_records_category.
Qed.

(** X10. When [scrape_category] returns, the page number it stores is the
    number of the first page without container, or the page count when no
    page is empty; the page counter has grown by the number of pages before
    it that loaded and the error counter by the number that failed. *)
Theorem pages_scraped_is_stop_page self key info self' :
  scrape_category fetch self key info = (self', Returns tt) ->
  exists r,
    categories_scraped self' !! key = Some r /\
    1 <= pages_scraped r <= pages info /\
    (forall m, 1 <= m < pages_scraped r -> empty fetch key m = false) /\
    (pages_scraped r < pages info -> empty fetch key (pages_scraped r) = true) /\
    stats_pages_scraped (scraping_stats self')
    = (stats_pages_scraped (scraping_stats self)
       + length (List.filter (loaded fetch key)
                   (seqZ 1 (if empty fetch key (pages_scraped r)
                            then pages_scraped r - 1 else pages_scraped r))))%nat /\
    errors (scraping_stats self')
    = (errors (scraping_stats self)
       + length (List.filter (failing fetch key)
                   (seqZ 1 (if empty fetch key (pages_scraped r)
                            then pages_scraped r - 1 else pages_scraped r))))%nat.
Proof.
  intros (page & Hp & Hb & He & ->)%scrape_category_form.
  eexists. split; [apply lookup_insert_eq|].
  cbn [pages_scraped]. split_and!; [lia|lia|exact Hb|exact He|reflexivity|reflexivity].
Qed.

(** X11. When [scrape_category] returns, it has appended the records it
    found to [self.products], all with the key and name of the category,
    stored their number under the key, left the other entries and the
    category counter alone, and set the total to the length of the
    collection. *)
Theorem scrape_category_bookkeeping self key info self' :
  scrape_category fetch self key info = (self', Returns tt) ->
  exists found page,
    products self' = products self ++ found /\
    categories_scraped self'
    = <[key := {| cr_name := cat_name info;
                  products_found := length found;
                  pages_scraped := page |}]> (categories_scraped self) /\
    total_products (scraping_stats self') = length (products self') /\
    categories_processed (scraping_stats self')
    = categories_processed (scraping_stats self) /\
    categories self' = categories self /\
    Forall (fun p => category_key p = key /\ category p = cat_name info) found.
Proof.
  intros (page & _ & _ & _ & ->)%scrape_category_form.
  eexists _, page. split_and!; try reflexivity.
  apply flat_map_page_yield_category.
Qed.

Lemma filter_every {A} (f : A -> bool) l :
  Forall (fun x => f x = true) l -> List.filter f l = l.
Proof.
  induction 1 as [|x l Hx _ IH]; cbn [List.filter]; [reflexivity|].
  now rewrite Hx, IH.
Qed.

Lemma filter_nothing {A} (f : A -> bool) l :
  Forall (fun x => f x = false) l -> List.filter f l = [].
Proof.
  induction 1 as [|x l Hx _ IH]; cbn [List.filter]; [reflexivity|].
  now rewrite Hx, IH.
Qed.

Lemma flat_map_nothing {A B} (f : A -> list B) l :
  Forall (fun x => f x = []) l -> flat_map f l = [].
Proof.
  induction 1 as [|x l Hx _ IH]; cbn [flat_map]; [reflexivity|].
  now rewrite Hx, IH.
Qed.

Lemma scrape_category_all_fail self key info :
  1 <= pages info ->
  (forall m, 1 <= m <= pages info -> fetch key m = FetchError) ->
  scrape_category fetch self key info
  = (store_category (add_counts self 0 (Z.to_nat (pages info)))
       key (cat_name info) [] (pages info),
     Returns tt).
Proof.
  intros Hp Hf.
  destruct (scrape_category fetch self key info) as [self' [[]|e]] eqn:E.
  - apply scrape_category_form in E as (page & Hpage & _ & He & ->).
    assert (page = pages info) as ->.
    { destruct (Z.eq_dec page (pages info)) as [|Hne]; [assumption|].
      specialize (He ltac:(lia)). unfold empty in He.
      rewrite Hf in He by lia. discriminate He. }
    replace (empty fetch key (pages info)) with false
      by (unfold empty; now rewrite Hf by lia).
    assert (Hall : Forall (fun m => fetch key m = FetchError) (seqZ 1 (pages info))).
    { apply Forall_forall. intros m Hm%elem_of_seqZ. apply Hf. lia. }
    rewrite filter_nothing, filter_every, flat_map_nothing, length_seqZ.
    + reflexivity.
    + eapply Forall_impl; [exact Hall|]. intros m Hm. unfold page_yield. now rewrite Hm.
    + eapply Forall_impl; [exact Hall|]. intros m Hm. unfold failing. now rewrite Hm.
    + eapply Forall_impl; [exact Hall|]. intros m Hm. unfold loaded, failing. now rewrite Hm.
  - apply scrape_category_raises in E as (Hlt & _). lia.
Qed.

(** X12. A category whose every page fails to load still returns: it
    counts one error per page, stores an entry with no product and the page
    count, and the category loop counts it as processed. *)
Theorem unreachable_category_is_processed self key info rest :
  1 <= pages info ->
  (forall m, 1 <= m <= pages info -> fetch key m = FetchError) ->
  scrape_category fetch self key info
  = (store_category (add_counts self 0 (Z.to_nat (pages info)))
       key (cat_name info) [] (pages info),
     Returns tt) /\
  run_categories fetch ((key, info) :: rest) self
  = run_categories fetch rest
      (count_category
         (store_category (add_counts self 0 (Z.to_nat (pages info)))
            key (cat_name info) [] (pages info))).
Proof.
  intros Hp Hf. pose proof (scrape_category_all_fail self key info Hp Hf) as H.
  split; [exact H|]. cbn [run_categories]. now rewrite H.
Qed.

End CategoryFacts.

Lemma gaming_returns :
  scrape_category end_of_results init "jeux-videos-consoles" gaming_two_pages
  = ((scrape_category end_of_results init "jeux-videos-consoles"
        gaming_two_pages).1,
     Returns tt).
Proof. vm_compute. reflexivity. Qed.

Lemma pages_scraped_is_stop_page_witness :
  exists r,
    categories_scraped
      (scrape_category end_of_results init "jeux-videos-consoles"
         gaming_two_pages).1 !! ("jeux-videos-consoles" : str) = Some r /\
    1 <= pages_scraped r <= pages gaming_two_pages.
Proof.
  destruct (pages_scraped_is_stop_page end_of_results init _ _ _ gaming_returns)
    as (r & Hr & Hp & _).
  exists r. split; assumption.
Defined.

Lemma scrape_category_bookkeeping_witness :
  exists found,
    products
      (scrape_category end_of_results init "jeux-videos-consoles"
         gaming_two_pages).1 = products init ++ found /\
    Forall (fun p => category_key p = ("jeux-videos-consoles" : str) /\
                     category p = cat_name gaming_two_pages) found.
Proof.
  destruct (scrape_category_bookkeeping end_of_results init _ _ _ gaming_returns)
    as (found & page & Hp & _ & _ & _ & _ & Hf).
  exists found. split; assumption.
Defined.

Lemma unreachable_category_is_processed_witness :
  1 <= pages gaming_two_pages /\
  scrape_category offline init "jeux-videos-consoles" gaming_two_pages
  = (store_category (add_counts init 0 2) "jeux-videos-consoles" "Gaming" [] 2,
     Returns tt).
Proof.
  assert (Hp : 1 <= pages gaming_two_pages) by (cbn; lia).
  split; [exact Hp|].
  exact (proj1 (unreachable_category_is_processed offline init
                  "jeux-videos-consoles" gaming_two_pages [] Hp
                  (fun m _ => eq_refl))).
Defined.

(** ** Counters over the category loop *)

Section RunAccounting.

Variable fetch : str -> Z -> fetched.

Lemma scrape_category_outcome self key info :
  (pages info < 1 /\
   scrape_category fetch self key info = (self, Raises UnboundLocalError)) \/
  (1 <= pages info /\
   exists self', scrape_category fetch self key info = (self', Returns tt)).
Proof.
  destruct (scrape_category fetch self key info) as [self' [[]|e]] eqn:E.
  - right. split; [|eauto].
    destruct (Z.le_gt_cases 1 (pages info)) as [|Hlt]; [assumption|].
    assert (Hr : scrape_category fetch self key info
                 = (self, Raises UnboundLocalError))
      by (apply scrape_category_raises; auto with lia).
    congruence.
  - left. apply scrape_category_raises in E as (Hlt & -> & ->). auto.
Qed.

(** One turn of the category loop. *)
Lemma run_categories_step key info rest self :
  (pages info < 1 /\
   run_categories fetch ((key, info) :: rest) self
   = run_categories fetch rest (count_error self)) \/
  (1 <= pages info /\
   exists self',
     scrape_category fetch self key info = (self', Returns tt) /\
     run_categories fetch ((key, info) :: rest) self
     = run_categories fetch rest (count_category self')).
Proof.
  cbn [run_categories].
  destruct (scrape_category_outcome self key info) as [[Hp E]|[Hp [self' E]]];
    rewrite E; eauto.
Qed.

Lemma run_categories_processed_count cats self :
  categories_processed (scraping_stats (run_categories fetch cats self))
  = (categories_processed (scraping_stats self)
     + length (List.filter has_page cats))%nat.
Proof.
  revert self. induction cats as [|[key info] rest IH]; intros self.
  - cbn. lia.
  - cbn [List.filter]. unfold has_page at 1. cbn [snd].
    destruct (run_categories_step key info rest self)
      as [[Hp ->]|[Hp (self' & E & ->)]]; rewrite IH.
    + replace (1 <=? pages info) with false by (symmetry; apply Z.leb_gt; lia).
      reflexivity.
    + replace (1 <=? pages info) with true by (symmetry; apply Z.leb_le; lia).
      apply scrape_category_form in E as (page & _ & _ & _ & ->).
      cbn. lia.
Qed.

Lemma run_categories_errors cats self :
  (errors_of self + length (List.filter (fun c => negb (has_page c)) cats)
   <= errors_of (run_categories fetch cats self))%nat.
Proof.
  revert self. induction cats as [|[key info] rest IH]; intros self.
  - cbn. lia.
  - cbn [List.filter]. unfold has_page at 1. cbn [snd].
    destruct (run_categories_step key info rest self)
      as [[Hp ->]|[Hp (self' & E & ->)]];
      (etrans; [|apply IH]).
    + replace (1 <=? pages info) with false by (symmetry; apply Z.leb_gt; lia).
      unfold errors_of. cbn. lia.
    + replace (1 <=? pages info) with true by (symmetry; apply Z.leb_le; lia).
      apply scrape_category_form in E as (page & _ & _ & _ & ->).
      unfold errors_of. cbn. lia.
Qed.

Lemma run_categories_entries cats self :
  (forall key info, (key, info) ∈ cats -> 1 <= pages info ->
     is_Some (categories_scraped (run_categories fetch cats self) !! key)) /\
  (forall key, key ∉ map fst cats ->
     categories_scraped (run_categories fetch cats self) !! key
     = categories_scraped self !! key) /\
  (forall key, is_Some (categories_scraped self !! key) ->
     is_Some (categories_scraped (run_categories fetch cats self) !! key)) /\
  categories (run_categories fetch cats self) = categories self.
Proof.
  revert self. induction cats as [|[key info] rest IH]; intros self.
  - cbn. split_and!; auto. intros key info H. now apply elem_of_nil in H.
  - destruct (run_categories_step key info rest self)
      as [[Hp ->]|[Hp (self' & E & ->)]].
    + destruct (IH (count_error self)) as (H1 & H2 & H3 & H4).
      split_and!.
      * intros k i [[= -> ->]|Hin]%elem_of_cons Hi; [lia|]. now apply (H1 k i).
      * intros k Hk. rewrite H2; [reflexivity|].
        intros Hin. apply Hk. cbn. now right.
      * exact H3.
      * exact H4.
    + apply scrape_category_form in E as (page & _ & _ & _ & ->).
      match goal with |- context [count_category ?s] =>
        destruct (IH (count_category s)) as (H1 & H2 & H3 & H4) end.
      split_and!.
      * intros k i [[= -> ->]|Hin]%elem_of_cons Hi; [|now apply (H1 k i)].
        apply H3. cbn. rewrite lookup_insert_eq. eauto.
      * intros k Hk. rewrite H2.
        -- cbn. apply lookup_insert_ne. intros ->. apply Hk. cbn. left.
        -- intros Hin. apply Hk. cbn. now right.
      * intros k Hk. apply H3. cbn.
        destruct (decide (key = k)) as [->|Hne].
        -- rewrite lookup_insert_eq. eauto.
        -- now rewrite lookup_insert_ne.
      * rewrite H4. reflexivity.
Qed.

Lemma run_categories_counted cats self :
  counted self -> counted (run_categories fetch cats self).
Proof.
  revert self. induction cats as [|[key info] rest IH]; intros self Hc.
  - exact Hc.
  - destruct (run_categories_step key info rest self)
      as [[Hp ->]|[Hp (self' & E & ->)]]; apply IH.
    + exact Hc.
    + apply scrape_category_form in E as (page & _ & _ & _ & ->). reflexivity.
Qed.

Lemma finalize_counted self : counted self -> finalize_scraping self = self.
Proof.
  destruct self as [ps cs [t c p e] cats]. unfold counted, finalize_scraping.
  cbn. now intros ->.
Qed.

(** The products of a run are those of the categories, one after the
    other. *)
Lemma run_categories_sum cats self :
  NoDup (map fst cats) ->
  (forall key, key ∈ map fst cats -> categories_scraped self !! key = None) ->
  length (products (run_categories fetch cats self))
  = (length (products self)
     + sum_list (map (found_in (run_categories fetch cats self)) (map fst cats)))%nat.
Proof.
  revert self. induction cats as [|[key info] rest IH]; intros self Hnd Hfresh.
  - cbn. lia.
  - cbn [map fst] in Hnd, Hfresh |- *. apply NoDup_cons in Hnd as [Hnotin Hnd].
    pose proof (run_categories_entries rest) as Hent.
    cbn [sum_list].
    destruct (run_categories_step key info rest self)
      as [[Hp ->]|[Hp (self' & E & ->)]].
    + assert (Hk : found_in (run_categories fetch rest (count_error self)) key
                   = 0%nat).
      { unfold found_in.
        destruct (Hent (count_error self)) as (_ & -> & _); [|exact Hnotin].
        cbn [categories_scraped count_error]. now rewrite Hfresh by left. }
      rewrite Hk, IH; [cbn; lia|exact Hnd|].
      intros k Hk'. cbn. apply Hfresh. now right.
    + apply scrape_category_form in E as (page & _ & _ & _ & ->).
      match goal with |- context [count_category ?s] => set (self1 := s) end.
      assert (Hk : found_in (run_categories fetch rest (count_category self1)) key
                   = (length (products self1) - length (products self))%nat).
      { unfold found_in.
        destruct (Hent (count_category self1)) as (_ & -> & _); [|exact Hnotin].
        subst self1. cbn. rewrite lookup_insert_eq. cbn. rewrite length_app. lia. }
      rewrite Hk, IH; [|exact Hnd|].
      * subst self1. cbn. rewrite length_app. lia.
      * intros k Hk'. subst self1. cbn. rewrite lookup_insert_ne.
        -- apply Hfresh. now right.
        -- intros ->. contradiction.
Qed.

(** X13. Over the category loop the category counter grows by the number of
    categories that have a page, the error counter by the number of the
    others at least; every category with a page ends up with an entry, and
    the entries of keys that are not scraped stay as they were. *)
Theorem run_categories_accounting cats self :
  categories_processed (scraping_stats (run_categories fetch cats self))
  = (categories_processed (scraping_stats self)
     + length (List.filter has_page cats))%nat /\
  (errors_of self + length (List.filter (fun c => negb (has_page c)) cats)
   <= errors_of (run_categories fetch cats self))%nat /\
  (forall key info, (key, info) ∈ cats -> 1 <= pages info ->
     is_Some (categories_scraped (run_categories fetch cats self) !! key)) /\
  (forall key, key ∉ map fst cats ->
     categories_scraped (run_categories fetch cats self) !! key
     = categories_scraped self !! key).
Proof.
  destruct (run_categories_entries cats self) as (H1 & H2 & _).
  split_and!;
    [apply run_categories_processed_count|apply run_categories_errors
    |exact H1|exact H2].
Qed.

(** X14. If the total agrees with the length of the collection before the
    category loop, it does after it, and [finalize_scraping] then changes
    nothing. *)
Theorem total_products_in_step cats self :
  counted self ->
  counted (run_categories fetch cats self) /\
  finalize_scraping (run_categories fetch cats self) = run_categories fetch cats self.
Proof.
  intros H. apply (run_categories_counted cats) in H.
  split; [exact H|now apply finalize_counted].
Qed.

End RunAccounting.

Lemma total_products_in_step_witness :
  counted init /\
  counted
    (run_categories two_pages
       [("ordinateurs-pc" : str,
         {| cat_name := "Laptops & Computers"; pages := 4;
            expected_products := 80 |})] init).
Proof.
  assert (H : counted init) by reflexivity.
  split; [exact H|]. exact (proj1 (total_products_in_step two_pages _ init H)).
Defined.

(** ** The whole run *)

Lemma int_truediv_outcome a b :
  b <> 0 ->
  (exists q, int_truediv a b = Returns q) \/ int_truediv a b = Raises OverflowError.
Proof.
  intros Hb. unfold int_truediv. destruct b; [congruence|..];
    destruct (ratio _ _ _); eauto.
Qed.

Lemma effective_pages_cases v info :
  effective_pages v info = default_pages info \/
  1 <= effective_pages v info.
Proof.
  unfold effective_pages. destruct (as_int v) as [n|]; [|auto].
  destruct (1 <=? n) eqn:E; [|auto]. right. now apply Z.leb_le.
Qed.

Lemma categories_to_scrape_outcome v base :
  Forall (fun b => default_pages b.2 <> 0) base ->
  categories_to_scrape v base = Raises OverflowError \/
  exists cats,
    categories_to_scrape v base = Returns cats /\
    Forall2 (fun b c => c.1 = b.1 /\ cat_name c.2 = base_name b.2 /\
                        pages c.2 = effective_pages v b.2) base cats.
Proof.
  induction 1 as [|[key info] base Hd _ IH]; cbn [categories_to_scrape].
  - right. exists []. split; [reflexivity|constructor].
  - unfold configure_category.
    destruct (int_truediv_outcome (effective_pages v info) (default_pages info) Hd)
      as [[q ->]| ->]; [|auto].
    destruct IH as [->|(cats & -> & Hc)]; [auto|].
    right. eexists. split; [reflexivity|]. constructor; [|exact Hc]. cbn. auto.
Qed.

Lemma base_categories_keys : NoDup (map fst base_categories).
Proof. apply (bool_decide_unpack _). vm_compute. exact I. Qed.

Lemma filter_has_page cats :
  Forall (fun c : str * category_info => 1 <= pages c.2) cats ->
  List.filter has_page cats = cats.
Proof.
  intros H. apply filter_every. eapply Forall_impl; [exact H|].
  intros c Hc. unfold has_page. now apply Z.leb_le.
Qed.

(** What the set-up returns for the five base categories. *)
Lemma set_up_outcome v :
  categories_to_scrape v base_categories = Raises OverflowError \/
  exists cats,
    categories_to_scrape v base_categories = Returns cats /\
    map fst cats = map fst base_categories /\
    Forall (fun c : str * category_info => 1 <= pages c.2) cats.
Proof.
  destruct (categories_to_scrape_outcome v base_categories) as [H|(cats & H & Hc)].
  - eapply Forall_impl; [exact base_categories_pages|]. cbn. intros b Hb. lia.
  - auto.
  - right. exists cats. split; [exact H|].
    pose proof base_categories_pages as Hb.
    clear H. induction Hc as [|b c base cats (Hk & _ & Hp) _ IH]; [split; constructor|].
    apply Forall_cons in Hb as [Hb1 Hb].
    destruct (IH Hb) as [IH1 IH2]. split.
    + cbn. now rewrite Hk, IH1.
    + constructor; [|exact IH2]. rewrite Hp.
      destruct (effective_pages_cases v b.2) as [->|]; lia.
Qed.

Section FullRun.

Variable fetch : str -> Z -> fetched.

(** X15. Whatever the override and the site, [scrape_all_categories] either
    raises [OverflowError] in the set-up, before anything is changed, or
    returns with every one of the five categories configured with a page at
    least, processed and entered in [categories_scraped], the total in step,
    and the records it started with still in front. *)
Theorem full_run_outcome self v :
  scrape_all_categories fetch self v = (self, Raises OverflowError) \/
  exists self',
    scrape_all_categories fetch self v = (self', Returns tt) /\
    categories_processed (scraping_stats self')
    = (categories_processed (scraping_stats self) + 5)%nat /\
    counted self' /\
    (forall key, key ∈ map fst base_categories ->
       is_Some (categories_scraped self' !! key)) /\
    map fst (categories self') = map fst base_categories /\
    Forall (fun c : str * category_info => 1 <= pages c.2) (categories self') /\
    products self `prefix_of` products self'.
Proof.
  unfold scrape_all_categories.
  destruct (set_up_outcome v) as [->|(cats & -> & Hk & Hp)]; [auto|].
  right. eexists. split; [reflexivity|].
  set (self0 := set_categories self cats).
  pose proof (run_categories_processed_count fetch cats self0) as Hc.
  destruct (run_categories_entries fetch cats self0) as (He & _ & _ & Hcats).
  pose proof (run_categories_inv fetch cats self0) as (Hpre & _).
  rewrite (filter_has_page cats Hp) in Hc.
  assert (Hlen : length cats = 5%nat).
  { rewrite <- (length_map fst), Hk. reflexivity. }
  split_and!.
  - cbn. rewrite Hc, Hlen. reflexivity.
  - reflexivity.
  - intros key Hin. cbn. rewrite <- Hk in Hin.
    apply list_elem_of_In, in_map_iff in Hin as ([k info] & <- & Hin).
    apply list_elem_of_In in Hin. apply (He k info Hin). rewrite Forall_forall in Hp. exact (Hp _ Hin).
  - cbn. rewrite Hcats. exact Hk.
  - cbn. rewrite Hcats. exact Hp.
  - exact Hpre.
Qed.

(** X16. When the keys are distinct and have no entry yet, the category
    loop adds as many records as the [products_found] of the categories add
    up to; after a run of a fresh scraper the total is the sum of the
    [products_found] of the five categories. *)
Theorem total_is_sum_of_categories :
  (forall cats self,
     NoDup (map fst cats) ->
     (forall key, key ∈ map fst cats -> categories_scraped self !! key = None) ->
     length (products (run_categories fetch cats self))
     = (length (products self)
        + sum_list (map (found_in (run_categories fetch cats self))
                      (map fst cats)))%nat) /\
  (forall v self',
     scrape_all_categories fetch init v = (self', Returns tt) ->
     total_products (scraping_stats self')
     = sum_list (map (found_in self') (map fst base_categories))).
Proof.
  split; [exact (run_categories_sum fetch)|].
  intros v self'. unfold scrape_all_categories.
  destruct (set_up_outcome v) as [->|(cats & -> & Hk & Hp)]; [discriminate|].
  intros [= <-]. cbn [scraping_stats finalize_scraping total_products products].
  rewrite run_categories_sum.
  - cbn [products set_categories init length Nat.add]. rewrite Hk.
    apply (f_equal sum_list), map_ext. intros key. reflexivity.
  - rewrite Hk. exact base_categories_keys.
  - intros key _. reflexivity.
Qed.

End FullRun.

(** ** Invariants of the collection *)

Lemma rstrip_idem s : rstrip (rstrip s) = rstrip s.
Proof. unfold rstrip. now rewrite rev_involutive, lstrip_idem. Qed.

Lemma strip_idem s : strip (strip s) = strip s.
Proof.
  unfold strip at 1. rewrite lstrip_strip. unfold strip. apply rstrip_idem.
Qed.

Lemma shown_name_stripped c : strip (shown_name c) = shown_name c.
Proof.
  unfold shown_name. destruct (name_elem c); [apply strip_idem|reflexivity].
Qed.

Lemma extract_well_formed c key name idx p :
  extract_product_data c key name idx = Some p -> (1 <= idx)%nat -> well_formed p.
Proof.
  intros H Hidx. pose proof (on_sale_above_current _ _ _ _ _ H) as Hsale.
  pose proof (extract_original_price _ _ _ _ _ H) as Ho.
  apply extract_product_data_Some in H as (_ & Hz & ->).
  constructor;
    cbn [product_name current_price original_price is_on_sale brand model
         price_tier value_score discount_percent product_id category_key] in *.
  - apply shown_name_stripped.
  - apply zero_ltb_of_nonneg; [apply cleaned_current_nonneg|exact Hz].
  - intros o. destruct (0 <? cleaned_original c)%float eqn:E; [|discriminate].
    now intros [= <-].
  - exact Hsale.
  - reflexivity.
  - reflexivity.
  - reflexivity.
  - apply value_score_bounds.
  - reflexivity.
  - eauto.
Qed.

Lemma page_records_from next cs key name :
  Forall (fun p => exists c idx,
            (next <= idx)%nat /\ extract_product_data c key name idx = Some p)
    (page_records next cs key name).
Proof.
  revert next. induction cs as [|c cs IH]; intros next; cbn [page_records];
    [constructor|].
  destruct (extract_product_data c key name next) as [p|] eqn:E; [|apply IH].
  constructor; [eauto|].
  eapply Forall_impl; [apply (IH (S next))|].
  intros q (c' & idx & Hi & Hq). exists c', idx. split; [lia|exact Hq].
Qed.

Lemma page_records_numbered next cs key name i p :
  page_records next cs key name !! i = Some p ->
  product_id p = product_id_of (next + i).
Proof.
  intros H. pose proof (page_records_ids next cs key name) as Hids.
  apply (f_equal (fun l => l !! i)) in Hids.
  change (map product_id) with (fmap (M:=list) product_id) in Hids.
  change (map product_id_of) with (fmap (M:=list) product_id_of) in Hids.
  rewrite !list_lookup_fmap, H in Hids. cbn in Hids.
  rewrite lookup_seq_lt in Hids by (apply lookup_lt_Some in H; exact H).
  cbn [fmap option_fmap option_map] in Hids. now injection Hids.
Qed.

Section RecordFacts.

Variable fetch : str -> Z -> fetched.

Lemma page_yield_well_formed self key name l :
  Forall well_formed (flat_map (page_yield fetch self key name) l).
Proof.
  induction l as [|m l IH]; cbn [flat_map]; [constructor|].
  apply Forall_app. split; [|exact IH].
  unfold page_yield. destruct (fetch key m); [constructor|].
  eapply Forall_impl; [apply page_records_from|].
  intros p (c & idx & Hi & Hp). apply (extract_well_formed _ _ _ _ _ Hp). lia.
Qed.

Lemma page_yield_numbered self key name l i p :
  flat_map (page_yield fetch self key name) l !! i = Some p ->
  exists n : nat,
    product_id p = product_id_of n /\
    (S (length (products self)) <= n <= S (length (products self) + i))%nat.
Proof.
  revert i. induction l as [|m l IH]; intros i; cbn [flat_map];
    [rewrite lookup_nil; discriminate|].
  rewrite lookup_app.
  destruct (page_yield fetch self key name m !! i) as [q|] eqn:E.
  - intros [= ->]. unfold page_yield in E.
    destruct (fetch key m); [rewrite lookup_nil in E; discriminate|].
    apply page_records_numbered in E. eexists. split; [exact E|lia].
  - intros (n & Hn & Hb)%IH. exists n. split; [exact Hn|lia].
Qed.

Lemma scrape_category_records self key info self' :
  scrape_category fetch self key info = (self', Returns tt) ->
  (Forall well_formed (products self) -> Forall well_formed (products self')) /\
  (numbered (products self) -> numbered (products self')).
Proof.
  intros (page & _ & _ & _ & ->)%scrape_category_form.
  cbn [products store_category add_counts]. split.
  - intros H. apply Forall_app. split; [exact H|apply page_yield_well_formed].
  - intros H i p. rewrite lookup_app.
    destruct (products self !! i) as [q|] eqn:E.
    + intros [= ->]. now apply H.
    + apply lookup_ge_None in E.
      intros (n & Hn & Hb)%page_yield_numbered.
      exists n. split; [exact Hn|]. cbn [products add_counts] in Hb. lia.
Qed.

(** X17. The category loop only adds well-formed records: a stripped name,
    a price above zero, an original price above zero if any, on sale only
    with an original price above the current one, brand, model, tier and
    flag as the leaf functions give them, a score in [0, 100] and an
    identifier with a number from 1 on. *)
Theorem records_well_formed cats self :
  Forall well_formed (products self) ->
  Forall well_formed (products (run_categories fetch cats self)).
Proof.
  revert self. induction cats as [|[key info] rest IH]; intros self H.
  - exact H.
  - destruct (run_categories_step fetch key info rest self)
      as [[Hp ->]|[Hp (self' & E & ->)]].
    + apply (IH (count_error self)). exact H.
    + apply scrape_category_records in E as [E _].
      apply (IH (count_category self')). exact (E H).
Qed.

(** X18. The category loop keeps the collection numbered: the number in the
    identifier of a record is at least 1 and at most the position of the
    record. *)
Theorem identifier_bounded_by_position cats self :
  numbered (products self) ->
  numbered (products (run_categories fetch cats self)).
Proof.
  revert self. induction cats as [|[key info] rest IH]; intros self H.
  - exact H.
  - destruct (run_categories_step fetch key info rest self)
      as [[Hp ->]|[Hp (self' & E & ->)]].
    + apply (IH (count_error self)). exact H.
    + apply scrape_category_records in E as [_ E].
      apply (IH (count_category self')). exact (E H).
Qed.

End RecordFacts.

Lemma records_well_formed_witness :
  Forall well_formed (products init) /\
  Forall well_formed
    (products (run_categories two_pages
                 [("ordinateurs-pc" : str,
                   {| cat_name := "Laptops & Computers"; pages := 4;
                      expected_products := 80 |})] init)).
Proof.
  assert (H : Forall well_formed (products init)) by constructor.
  split; [exact H|]. exact (records_well_formed two_pages _ init H).
Defined.

Lemma identifier_bounded_by_position_witness :
  numbered (products init) /\
  numbered
    (products (run_categories two_pages
                 [("ordinateurs-pc" : str,
                   {| cat_name := "Laptops & Computers"; pages := 4;
                      expected_products := 80 |})] init)).
Proof.
  assert (H : numbered (products init)).
  { intros i p Hp. discriminate Hp. }
  split; [exact H|]. exact (identifier_bounded_by_position two_pages _ init H).
Defined.

(** ** The script and the method *)

Lemma PAGES_TO_SCRAPE_valid int_of_str pages_input :
  PAGES_TO_SCRAPE int_of_str pages_input = None \/
  exists n, PAGES_TO_SCRAPE int_of_str pages_input = Some n /\ 1 <= n.
Proof.
  unfold PAGES_TO_SCRAPE. destruct (bool_decide _); [auto|].
  destruct (int_of_str pages_input) as [n|]; [|auto].
  destruct (n <? 1) eqn:E; right; eexists; (split; [reflexivity|]); [lia|].
  apply Z.ltb_ge in E. exact E.
Qed.

Lemma effective_pages_argument chosen info :
  (chosen = None \/ exists n, chosen = Some n /\ 1 <= n) ->
  effective_pages (as_argument chosen) info = default (default_pages info) chosen.
Proof.
  intros [->|(n & -> & Hn)]; [reflexivity|].
  unfold effective_pages. cbn.
  now replace (1 <=? n) with true by (symmetry; apply Z.leb_le; lia).
Qed.

Lemma expected_products_total_agrees chosen base total :
  (chosen = None \/ exists n, chosen = Some n /\ 1 <= n) ->
  expected_products_total chosen base total =
  match categories_to_scrape (as_argument chosen) base with
  | Returns cats => Returns (expected_sum cats total)
  | Raises e => Raises e
  end.
Proof.
  intros Hc. revert total. induction base as [|[key info] rest IH]; intros total.
  - reflexivity.
  - cbn [expected_products_total categories_to_scrape]. unfold configure_category.
    rewrite (effective_pages_argument chosen info Hc).
    destruct (int_truediv _ _) as [ratio|e]; [|reflexivity].
    rewrite IH. destruct (categories_to_scrape _ rest); reflexivity.
Qed.

(** X19. The page count the script takes from the prompt is [None] or a
    number from 1 on, so the method applies it as the script does; the
    total the script announces is the sum of the expected products the
    method configures, the script raises when the method would, and with
    the default pages the total is 320. *)
Theorem script_agrees_with_method int_of_str pages_input :
  (PAGES_TO_SCRAPE int_of_str pages_input = None \/
   exists n, PAGES_TO_SCRAPE int_of_str pages_input = Some n /\ 1 <= n) /\
  (forall info,
     effective_pages (as_argument (PAGES_TO_SCRAPE int_of_str pages_input)) info
     = default (default_pages info) (PAGES_TO_SCRAPE int_of_str pages_input)) /\
  expected_products_total (PAGES_TO_SCRAPE int_of_str pages_input) base_categories 0
  = match
      categories_to_scrape (as_argument (PAGES_TO_SCRAPE int_of_str pages_input))
        base_categories
    with
    | Returns cats => Returns (expected_sum cats 0)
    | Raises e => Raises e
    end /\
  (PAGES_TO_SCRAPE int_of_str pages_input = None ->
   expected_products_total (PAGES_TO_SCRAPE int_of_str pages_input) base_categories 0
   = Returns 320%float).
Proof.
  pose proof (PAGES_TO_SCRAPE_valid int_of_str pages_input) as H.
  split_and!.
  - exact H.
  - intros info. now apply effective_pages_argument.
  - now apply expected_products_total_agrees.
  - intros ->. vm_compute. reflexivity.
Qed.

(** ** [calculate_discount] *)

(** *** Scaled values *)

Lemma scaled_shift m e n :
  0 <= n -> -2200 <= e -> scaled m (e + n) = scaled (m * 2 ^ n) e.
Proof.
  intros Hn He. unfold scaled.
  replace (e + n + 2200) with (n + (e + 2200)) by lia.
  rewrite Z.pow_add_r by lia. lia.
Qed.

Lemma scaled_pos e : -2200 <= e -> 0 < 2 ^ (e + 2200).
Proof. intros H. apply Z.pow_pos_nonneg; lia. Qed.

Lemma scaled_le m1 m2 e : -2200 <= e -> (scaled m1 e <= scaled m2 e <-> m1 <= m2).
Proof. intros H. pose proof (scaled_pos e H). unfold scaled. nia. Qed.

Lemma scaled_lt m1 m2 e : -2200 <= e -> (scaled m1 e < scaled m2 e <-> m1 < m2).
Proof. intros H. pose proof (scaled_pos e H). unfold scaled. nia. Qed.

Lemma scaled_pow k e : 0 <= k -> -2200 <= e -> scaled (2 ^ k) e = 2 ^ (k + e + 2200).
Proof.
  intros Hk He. unfold scaled. rewrite <- Z.pow_add_r by lia. f_equal. lia.
Qed.

(** *** Canonical mantissas *)

Lemma valid_canonical s m e :
  valid_binary (S754_finite s m e) = true -> canonical m e.
Proof.
  simpl. unfold bounded, canonical_mantissa, canonical.
  intros H. apply andb_true_iff in H as [H1 H2].
  apply Z.eqb_eq in H1. apply Z.leb_le in H2. auto.
Qed.

Lemma canonical_bounds m e :
  canonical m e ->
  -1074 <= e <= 971 /\ Z.pos m < 2 ^ 53 /\
  (-1074 < e -> 2 ^ 52 <= Z.pos m).
Proof.
  unfold canonical, fexp, SpecFloat.emin, prec, emax. intros [Hc He].
  pose proof (digits2_pos_bound m) as Hu. pose proof (digits2_pos_lower m) as Hl.
  split; [lia|]. split.
  - eapply Z.lt_le_trans; [exact Hu|]. apply Z.pow_le_mono_r; lia.
  - intros Hn. assert (Z.pos (digits2_pos m) = 53) as Hd by lia.
    rewrite Hd in Hl. exact Hl.
Qed.

(** A canonical number with the larger exponent is the larger number. *)
Lemma canonical_lt_exp m1 e1 m2 e2 :
  canonical m1 e1 -> canonical m2 e2 -> e1 < e2 ->
  scaled (Z.pos m1) e1 < scaled (Z.pos m2) e2.
Proof.
  intros (H1 & Hm1 & _)%canonical_bounds (H2 & _ & Hm2)%canonical_bounds He.
  specialize (Hm2 ltac:(lia)).
  replace e2 with (e1 + (e2 - e1)) by lia.
  rewrite scaled_shift by lia. apply scaled_lt; [lia|].
  assert (2 ^ 1 <= 2 ^ (e2 - e1)) by (apply Z.pow_le_mono_r; lia).
  change (2 ^ 1) with 2 in *. change (2 ^ 53) with (2 * 2 ^ 52) in Hm1. nia.
Qed.

Lemma SFleb_canonical m1 e1 m2 e2 :
  canonical m1 e1 -> canonical m2 e2 ->
  (SFleb (S754_finite false m1 e1) (S754_finite false m2 e2) = true <->
   scaled (Z.pos m1) e1 <= scaled (Z.pos m2) e2).
Proof.
  intros H1 H2. unfold SFleb. cbn [SFcompare].
  pose proof (canonical_bounds _ _ H1) as (He1 & _).
  destruct (e1 ?= e2) eqn:E.
  - apply Z.compare_eq in E. subst e2. rewrite scaled_le by lia.
    change (Pos.compare_cont Eq m1 m2) with (m1 ?= m2)%positive.
    destruct (m1 ?= m2)%positive eqn:Ec.
    + apply Pos.compare_eq in Ec. subst. split; [lia|reflexivity].
    + rewrite Pos.compare_lt_iff in Ec. split; [lia|reflexivity].
    + rewrite Pos.compare_gt_iff in Ec. split; [discriminate|lia].
  - rewrite Z.compare_lt_iff in E.
    pose proof (canonical_lt_exp _ _ _ _ H1 H2 E). split; [lia|reflexivity].
  - rewrite Z.compare_gt_iff in E.
    pose proof (canonical_lt_exp _ _ _ _ H2 H1 ltac:(lia)). split; [discriminate|lia].
Qed.

(** *** Shifts to the right *)

Lemma shifted_0 mrs : 0 <= shr_m mrs -> shifted 0 mrs mrs.
Proof.
  intros H. unfold shifted. change (2 ^ 0) with 1.
  split_and!; [lia|lia|lia|]. split; [auto|]. intros [E|E]; [exact E|lia].
Qed.

Lemma shifted_1 mrs : 0 <= shr_m mrs -> shifted 1 mrs (shr_1 mrs).
Proof.
  destruct mrs as [[|[p|p|]|p] r s]; intros H; unfold shifted, inexact;
    cbn [shr_1 shr_m shr_r shr_s]; change (2 ^ 1) with 2;
    cbn [shr_m] in H; (split_and!; [lia|lia|lia|]);
    destruct r, s; cbn [orb];
    (split; [intros E|intros [E|E]]);
    try discriminate E; try lia; try reflexivity;
    try (left; reflexivity); try (right; lia).
Qed.

Lemma shifted_trans k1 k2 a b c :
  0 <= k1 -> 0 <= k2 -> shifted k1 a b -> shifted k2 b c -> shifted (k1 + k2) a c.
Proof.
  intros H1 H2 (Hb & Hab & Hi1) (Hc & Hbc & Hi2).
  unfold shifted. rewrite Z.pow_add_r by lia.
  assert (0 < 2 ^ k1) by (apply Z.pow_pos_nonneg; lia).
  assert (0 < 2 ^ k2) by (apply Z.pow_pos_nonneg; lia).
  split_and!.
  - exact Hc.
  - nia.
  - nia.
  - rewrite Hi2, Hi1. split.
    + intros [[E|E]|E]; [auto|right; nia|right; nia].
    + intros [E|E]; [auto|].
      destruct (Z.eq_dec (shr_m a) (2 ^ k1 * shr_m b)) as [Eq|Ne].
      * right. nia.
      * left. right. lia.
Qed.

Lemma shifted_nonneg k a b : shifted k a b -> 0 <= shr_m b.
Proof. now intros (H & _). Qed.

Lemma shifted_iter p mrs :
  0 <= shr_m mrs -> shifted (Z.pos p) mrs (SpecFloat.iter_pos shr_1 p mrs).
Proof.
  revert mrs. induction p as [p IH|p IH|]; intros mrs H; cbn [SpecFloat.iter_pos].
  - pose proof (shifted_1 mrs H) as S1.
    pose proof (IH _ (shifted_nonneg _ _ _ S1)) as S2.
    pose proof (IH _ (shifted_nonneg _ _ _ S2)) as S3.
    replace (Z.pos p~1) with (1 + Z.pos p + Z.pos p) by lia.
    apply (shifted_trans (1 + Z.pos p) (Z.pos p) _ _ _ ltac:(lia) ltac:(lia)
             (shifted_trans 1 (Z.pos p) _ _ _ ltac:(lia) ltac:(lia) S1 S2) S3).
  - pose proof (IH _ H) as S2.
    pose proof (IH _ (shifted_nonneg _ _ _ S2)) as S3.
    replace (Z.pos p~0) with (Z.pos p + Z.pos p) by lia.
    apply (shifted_trans (Z.pos p) (Z.pos p) _ _ _ ltac:(lia) ltac:(lia) S2 S3).
  - now apply shifted_1.
Qed.

Lemma shr_fexp_shifted m e l :
  0 <= m ->
  let '(mrs, e') := shr_fexp prec emax m e l in
  e' = Z.max e (fexp prec emax (Zdigits2 m + e)) /\
  shifted (e' - e) (shr_record_of_loc m l) mrs.
Proof.
  intros H. unfold shr_fexp, shr.
  assert (Hr : shr_m (shr_record_of_loc m l) = m) by (destruct l as [|[]]; reflexivity).
  destruct (fexp prec emax (Zdigits2 m + e) - e) as [|p|p] eqn:E.
  - rewrite Z.sub_diag. split; [lia|]. apply shifted_0. lia.
  - replace (e + Z.pos p - e) with (Z.pos p) by lia. split; [lia|].
    apply shifted_iter. lia.
  - rewrite Z.sub_diag. split; [lia|]. apply shifted_0. lia.
Qed.

Lemma inexact_loc mrs :
  inexact mrs = false -> loc_of_shr_record mrs = loc_Exact.
Proof.
  destruct mrs as [m [] []]; unfold inexact; cbn; intros H;
    (discriminate H || reflexivity).
Qed.

Lemma inexact_of_loc m l :
  inexact (shr_record_of_loc m l) = true -> l <> loc_Exact.
Proof. destruct l as [|[]]; unfold inexact; cbn; congruence. Qed.

Lemma round_nearest_even_cases m mrs :
  shr_m mrs = m ->
  round_nearest_even m (loc_of_shr_record mrs) = m \/
  (round_nearest_even m (loc_of_shr_record mrs) = m + 1 /\ inexact mrs = true).
Proof.
  intros <-. destruct mrs as [m [] []]; unfold inexact; cbn; auto.
  destruct (Z.even m); auto.
Qed.

(** *** Rounding does not pass a float *)

Lemma pow_le_ceiling k : k <= 3224 -> 2 ^ k <= ceiling.
Proof.
  intros H. unfold ceiling. destruct (Z.le_gt_cases 0 k).
  - apply Z.pow_le_mono_r; lia.
  - rewrite Z.pow_neg_r by lia. apply Z.pow_nonneg. lia.
Qed.

Lemma pow_lt_ceiling k : 0 <= k -> 2 ^ k < ceiling -> k < 3224.
Proof.
  intros H0 H. unfold ceiling in H. apply Z.pow_lt_mono_r_iff in H; lia.
Qed.

Lemma digits_exp_bound m e :
  0 < m -> -2200 <= e -> scaled m e < ceiling -> Zdigits2 m + e <= 1024.
Proof.
  intros Hm He Hs. destruct m as [|p|p]; [lia| |lia]. cbn [Zdigits2].
  pose proof (digits2_pos_lower p) as Hl.
  pose proof (Pos2Z.is_pos (digits2_pos p)) as Hd.
  assert (Hp : 2 ^ (Z.pos (digits2_pos p) - 1 + (e + 2200)) < ceiling).
  { rewrite Z.pow_add_r by lia. unfold scaled in Hs.
    pose proof (scaled_pos e He) as Hpos. revert Hs Hl Hpos.
    generalize ceiling, (2 ^ (e + 2200)), (2 ^ (Z.pos (digits2_pos p) - 1)).
    intros c a b Hs Hl Hpos. nia. }
  apply pow_lt_ceiling in Hp; lia.
Qed.

Lemma canonical_below m e : canonical m e -> scaled (Z.pos m) e < ceiling.
Proof.
  intros (He & Hm & _)%canonical_bounds.
  apply Z.lt_le_trans with (scaled (2 ^ 53) e).
  - apply scaled_lt; lia.
  - rewrite scaled_pow by lia. apply pow_le_ceiling. lia.
Qed.

(** Rounding a value that is not above a float gives a float that is not
    above it either. *)
Lemma binary_round_aux_le m e l mb eb :
  0 <= m -> -2200 <= e -> e <= fexp prec emax (Zdigits2 m + e) ->
  canonical mb eb ->
  scaled m e <= scaled (Z.pos mb) eb ->
  (l <> loc_Exact -> scaled m e < scaled (Z.pos mb) eb) ->
  at_most (binary_round_aux prec emax false m e l) mb eb.
Proof.
  intros Hm He Hpre Hcan Hle Hlt. unfold at_most, binary_round_aux.
  pose proof (canonical_bounds _ _ Hcan) as (Heb & Hmb & _).
  pose proof (canonical_below _ _ Hcan) as Hbelow.
  pose proof (shr_fexp_shifted m e l ltac:(lia)) as H1.
  destruct (shr_fexp prec emax m e l) as [mrs1 e1].
  destruct H1 as (He1 & Hm1 & Hfloor & Hin).
  assert (Hr : shr_m (shr_record_of_loc m l) = m) by (destruct l as [|[]]; reflexivity).
  rewrite Hr in Hfloor, Hin.
  assert (He1' : e1 = fexp prec emax (Zdigits2 m + e)) by lia.
  assert (Hn : 0 <= e1 - e) by lia.
  set (m1 := shr_m mrs1) in *.
  assert (Hp : 0 < 2 ^ (e1 - e)) by (apply Z.pow_pos_nonneg; lia).
  assert (Hs1 : scaled m1 e1 = scaled (m1 * 2 ^ (e1 - e)) e).
  { rewrite <- scaled_shift by lia. f_equal. lia. }
  assert (Hs1le : scaled m1 e1 <= scaled m e).
  { rewrite Hs1. apply scaled_le; [lia|]. lia. }
  assert (Hde : Zdigits2 m + e <= 1024).
  { destruct (Z.eq_dec m 0) as [->|Hne]; [|apply digits_exp_bound; lia].
    cbn [Zdigits2] in *. unfold fexp, SpecFloat.emin, prec, emax in Hpre. lia. }
  assert (He1971 : -1074 <= e1 <= 971)
    by (unfold fexp, SpecFloat.emin, prec, emax in He1'; lia).
  set (m2 := round_nearest_even m1 (loc_of_shr_record mrs1)).
  assert (Hm2 : m1 <= m2 /\ scaled m2 e1 <= scaled (Z.pos mb) eb).
  { destruct (round_nearest_even_cases m1 mrs1 eq_refl) as [E|[E Hi]];
      fold m2 in E; rewrite E.
    - split; lia.
    - split; [lia|].
      assert (Hstrict : scaled m1 e1 < scaled (Z.pos mb) eb).
      { apply Hin in Hi as [Hi|Hi].
        - apply inexact_of_loc in Hi. specialize (Hlt Hi). lia.
        - eapply Z.lt_le_trans; [|exact Hle]. rewrite Hs1.
          apply scaled_lt; [lia|]. lia. }
      destruct (Z.le_gt_cases e1 eb) as [Hee|Hee].
      + replace eb with (e1 + (eb - e1)) in Hstrict |- * by lia.
        rewrite scaled_shift in Hstrict |- * by lia.
        apply scaled_lt in Hstrict; [|lia]. apply scaled_le; lia.
      + exfalso.
        assert (Hd : e1 = Zdigits2 m + e - 53)
          by (unfold fexp, SpecFloat.emin, prec, emax in He1'; lia).
        assert (Hlow : 2 ^ 52 <= m1).
        { destruct m as [|p|p]; cbn [Zdigits2] in Hd; [lia| |lia].
          pose proof (digits2_pos_lower p) as Hl.
          replace (Z.pos (digits2_pos p) - 1) with (52 + (e1 - e)) in Hl by lia.
          rewrite Z.pow_add_r in Hl by lia. nia. }
        assert (scaled (2 ^ 53) eb <= scaled m1 e1).
        { apply Z.le_trans with (scaled (2 ^ 52) e1); [|apply scaled_le; lia].
          rewrite !scaled_pow by lia. apply Z.pow_le_mono_r; lia. }
        assert (scaled (Z.pos mb) eb < scaled (2 ^ 53) eb) by (apply scaled_lt; lia).
        lia. }
  destruct Hm2 as [Hm12 Hm2].
  pose proof (shr_fexp_shifted m2 e1 loc_Exact ltac:(lia)) as H3.
  destruct (shr_fexp prec emax m2 e1 loc_Exact) as [mrs3 e3].
  destruct H3 as (He3 & Hm3 & Hfloor3 & _).
  cbn [shr_record_of_loc shr_m] in Hfloor3.
  assert (Hp3 : 0 < 2 ^ (e3 - e1)) by (apply Z.pow_pos_nonneg; lia).
  destruct (shr_m mrs3) as [|p|p] eqn:E3; [auto| |lia].
  right.
  assert (Hs3 : scaled (Z.pos p) e3 <= scaled m2 e1).
  { replace e3 with (e1 + (e3 - e1)) by lia. rewrite scaled_shift by lia.
    apply scaled_le; [lia|]. lia. }
  assert (Hde2 : Zdigits2 m2 + e1 <= 1024) by (apply digits_exp_bound; nia || lia).
  assert (He3971 : e3 <= 971)
    by (unfold fexp, SpecFloat.emin, prec, emax in He3; lia).
  replace (e3 <=? emax - prec) with true
    by (symmetry; apply Z.leb_le; unfold emax, prec; lia).
  exists p, e3. split; [reflexivity|lia].
Qed.

(** *** The three operations *)

Lemma Zdigits2_lower z k : 0 <= k -> 2 ^ k <= z -> k + 1 <= Zdigits2 z.
Proof.
  intros Hk Hz. assert (0 < 2 ^ k) by (apply Z.pow_pos_nonneg; lia).
  destruct z as [|p|p]; try lia. cbn [Zdigits2].
  pose proof (digits2_pos_bound p) as Hu.
  assert (Hp : 2 ^ k < 2 ^ Z.pos (digits2_pos p)) by lia.
  apply Z.pow_lt_mono_r_iff in Hp; lia.
Qed.

Lemma fexp_ge k : k - 53 <= fexp prec emax k.
Proof. unfold fexp, SpecFloat.emin, prec, emax. lia. Qed.

Lemma fexp_mono a b : a <= b -> fexp prec emax a <= fexp prec emax b.
Proof. unfold fexp, SpecFloat.emin, prec, emax. lia. Qed.

(** A product with a factor that is at most one is at most the other
    factor. *)
Lemma SFmul_at_most mq eq mb eb :
  canonical mq eq -> canonical mb eb -> 2 ^ 52 <= Z.pos mb ->
  scaled (Z.pos mq) eq <= scaled 1 0 ->
  at_most (SFmul prec emax (S754_finite false mq eq) (S754_finite false mb eb))
    mb eb.
Proof.
  intros Hq Hb Hnormal Hle. cbn [SFmul xorb].
  pose proof (canonical_bounds _ _ Hq) as (Heq & _).
  pose proof (canonical_bounds _ _ Hb) as (Heb & _).
  apply binary_round_aux_le; [lia|lia| |exact Hb| |congruence].
  - assert (Hd : 53 <= Zdigits2 (Z.pos (mq * mb))).
    { apply (Zdigits2_lower _ 52); [lia|]. rewrite Pos2Z.inj_mul. nia. }
    pose proof (fexp_ge (Zdigits2 (Z.pos (mq * mb)) + (eq + eb))). lia.
  - rewrite Pos2Z.inj_mul.
    assert (Hs : scaled (Z.pos mq * Z.pos mb) (eq + eb)
                 = Z.pos mb * 2 ^ (eb + 1074) * scaled (Z.pos mq) (eq + -1074)).
    { unfold scaled. replace (eq + eb + 2200) with ((eb + 1074) + (eq + -1074 + 2200)) by lia.
      rewrite Z.pow_add_r by lia. ring. }
    assert (Hb' : scaled (Z.pos mb) eb
                  = Z.pos mb * 2 ^ (eb + 1074) * scaled 1 (-1074)).
    { unfold scaled. replace (eb + 2200) with ((eb + 1074) + (-1074 + 2200)) by lia.
      rewrite Z.pow_add_r by lia. ring. }
    rewrite Hs, Hb'. apply Z.mul_le_mono_nonneg_l.
    + assert (0 < 2 ^ (eb + 1074)) by (apply Z.pow_pos_nonneg; lia). nia.
    + unfold scaled in Hle |- *.
      replace (eq + 2200) with ((eq + -1074 + 2200) + 1074) in Hle by lia.
      replace (0 + 2200) with ((-1074 + 2200) + 1074) in Hle by lia.
      rewrite (Z.pow_add_r 2 (eq + -1074 + 2200) 1074),
        (Z.pow_add_r 2 (-1074 + 2200) 1074) in Hle by lia.
      assert (Hp : 0 < 2 ^ 1074) by (apply Z.pow_pos_nonneg; lia).
      revert Hle Hp.
      generalize (2 ^ 1074), (2 ^ (eq + -1074 + 2200)), (2 ^ (-1074 + 2200)).
      intros P a b Hle Hp. nia.
Qed.

Lemma new_location_zero n : new_location n 0 = loc_Exact.
Proof.
  unfold new_location, new_location_even, new_location_odd.
  destruct (Z.even n); reflexivity.
Qed.

Lemma Zdigits2_nonneg z : 0 <= Zdigits2 z.
Proof. destruct z; cbn; lia. Qed.

Lemma canonical_one : canonical 4503599627370496 (-52).
Proof. exact (valid_canonical _ _ _ (Prim2SF_valid 1)). Qed.

(** The mantissa of a quotient has enough digits to be rounded. *)
Lemma quotient_digits mx mo s q r :
  0 <= s -> Z.pos mx * 2 ^ s = mo * q + r -> 0 <= r < mo ->
  Zdigits2 (Z.pos mx) + s - Zdigits2 mo <= Zdigits2 q.
Proof.
  intros Hs Hq Hr. assert (Hmo : 0 < mo) by lia.
  assert (Hq0 : 0 <= q) by nia.
  destruct mo as [|po|po]; try lia. cbn [Zdigits2] in *.
  pose proof (Zdigits2_nonneg q) as Hd.
  destruct (Z.le_gt_cases (Z.pos (digits2_pos mx) + s - Z.pos (digits2_pos po)) 0)
    as [Hk|Hk]; [lia|].
  set (k := Z.pos (digits2_pos mx) + s - Z.pos (digits2_pos po) - 1).
  assert (Hk0 : 0 <= k) by lia.
  enough (k + 1 <= Zdigits2 q) by lia.
  apply Zdigits2_lower; [exact Hk0|].
  pose proof (digits2_pos_lower mx) as Hl. pose proof (digits2_pos_bound po) as Hu.
  assert (Hpow : 2 ^ (Z.pos (digits2_pos mx) - 1) * 2 ^ s
                 = 2 ^ k * 2 ^ Z.pos (digits2_pos po)).
  { rewrite <- !Z.pow_add_r by lia. f_equal. lia. }
  assert (H2s : 0 < 2 ^ s) by (apply Z.pow_pos_nonneg; lia).
  assert (H2k : 0 < 2 ^ k) by (apply Z.pow_pos_nonneg; lia).
  revert Hq Hl Hu Hpow H2s H2k.
  generalize (2 ^ s), (2 ^ k), (2 ^ Z.pos (digits2_pos po)),
    (2 ^ (Z.pos (digits2_pos mx) - 1)).
  intros S K D L Hq Hl Hu Hpow H2s H2k.
  assert (K * D < (q + 1) * D) by nia. nia.
Qed.

(** A quotient by a number that is not smaller is at most one. *)
Lemma SFdiv_at_most mx ex mo eo :
  canonical mx ex -> canonical mo eo ->
  scaled (Z.pos mx) ex <= scaled (Z.pos mo) eo ->
  at_most (SFdiv prec emax (S754_finite false mx ex) (S754_finite false mo eo))
    4503599627370496 (-52).
Proof.
  intros Hx Ho Hle. cbn [SFdiv xorb]. unfold SFdiv_core_binary.
  pose proof (canonical_bounds _ _ Hx) as (Hex & _).
  pose proof (canonical_bounds _ _ Ho) as (Heo & _).
  set (e' := Z.min _ (ex - eo)).
  assert (He'1 : e' <= fexp prec emax (Zdigits2 (Z.pos mx) + ex
                                       - (Zdigits2 (Z.pos mo) + eo)))
    by apply Z.le_min_l.
  assert (He'2 : e' <= ex - eo) by apply Z.le_min_r.
  assert (He'3 : -2200 <= e').
  { subst e'. unfold fexp, SpecFloat.emin, prec, emax. lia. }
  set (s := ex - eo - e') in *.
  set (m' := match s with Z0 => _ | _ => _ end).
  assert (Hm' : m' = Z.pos mx * 2 ^ s).
  { subst m'. destruct s as [|k|k] eqn:E; try lia.
    now rewrite Z.shiftl_mul_pow2 by lia. }
  pose proof (Z.div_eucl_eq m' (Z.pos mo) ltac:(lia)) as Hq.
  pose proof (Z.mod_pos_bound m' (Z.pos mo) ltac:(lia)) as Hr.
  unfold Z.modulo in Hr.
  destruct (Z.div_eucl m' (Z.pos mo)) as [q r].
  rewrite Hm' in Hq. clearbody m'. clear Hm' m'.
  assert (H2s : 0 < 2 ^ s) by (apply Z.pow_pos_nonneg; lia).
  assert (Hq0 : 0 <= q) by nia.
  (* the quotient of the values *)
  assert (Hval : Z.pos mo * scaled q e' + r * 2 ^ (e' + 2200)
                 <= Z.pos mo * scaled 1 0).
  { unfold scaled in Hle |- *.
    assert (E1 : 2 ^ (ex + 2200) * 2 ^ 1074
                 = 2 ^ s * 2 ^ (e' + 2200) * 2 ^ (eo + 1074)).
    { rewrite <- !Z.pow_add_r by lia. f_equal. lia. }
    assert (E2 : 2 ^ (eo + 2200) * 2 ^ 1074 = 2 ^ (0 + 2200) * 2 ^ (eo + 1074)).
    { rewrite <- !Z.pow_add_r by lia. f_equal. lia. }
    assert (HP : 0 < 2 ^ 1074) by (apply Z.pow_pos_nonneg; lia).
    assert (HT : 0 < 2 ^ (eo + 1074)) by (apply Z.pow_pos_nonneg; lia).
    assert (HA : 0 < 2 ^ (e' + 2200)) by (apply Z.pow_pos_nonneg; lia).
    revert Hle Hq E1 E2 HP HT HA H2s.
    generalize (2 ^ (ex + 2200)), (2 ^ (eo + 2200)), (2 ^ 1074),
      (2 ^ (eo + 1074)), (2 ^ (e' + 2200)), (2 ^ (0 + 2200)), (2 ^ s).
    intros X O P T A G S Hle Hq E1 E2 HP HT HA H2s.
    assert (H1 : Z.pos mx * (S * A) * T <= Z.pos mo * G * T).
    { replace (Z.pos mx * (S * A) * T) with (Z.pos mx * X * P) by (rewrite <- Z.mul_assoc, E1; ring).
      replace (Z.pos mo * G * T) with (Z.pos mo * O * P) by (rewrite <- Z.mul_assoc, E2; ring).
      nia. }
    assert (H2 : Z.pos mx * (S * A) <= Z.pos mo * G) by nia.
    replace (Z.pos mo * (q * A) + r * A) with ((Z.pos mo * q + r) * A) by ring.
    rewrite <- Hq. lia. }
  assert (HA : 0 < 2 ^ (e' + 2200)) by (apply Z.pow_pos_nonneg; lia).
  assert (Hone : scaled 4503599627370496 (-52) = scaled 1 0) by reflexivity.
  apply binary_round_aux_le; [exact Hq0|exact He'3| |exact canonical_one| |].
  - etrans; [exact He'1|]. apply fexp_mono.
    pose proof (quotient_digits mx (Z.pos mo) s q r ltac:(lia) Hq Hr) as Hd.
    subst s. lia.
  - rewrite Hone. nia.
  - intros Hloc. rewrite Hone.
    assert (r <> 0) by (intros ->; now rewrite new_location_zero in Hloc).
    nia.
Qed.

Lemma iter_xO_spec p d :
  Z.pos (Pos.iter xO p d) = Z.pos p * 2 ^ Z.pos d /\
  Z.pos (digits2_pos (Pos.iter xO p d)) = Z.pos (digits2_pos p) + Z.pos d.
Proof.
  apply Pos.iter_ind.
  - change (2 ^ 1) with 2. cbn [digits2_pos]. lia.
  - intros q a [Ha Hd]. rewrite Pos2Z.inj_succ, Z.pow_succ_r by lia.
    cbn [digits2_pos]. lia.
Qed.

Lemma shl_align_spec mx ex ex' :
  (shl_align mx ex ex').2 = Z.min ex ex' /\
  Z.pos (shl_align mx ex ex').1 = Z.pos mx * 2 ^ (ex - Z.min ex ex') /\
  Z.pos (digits2_pos (shl_align mx ex ex').1)
  = Z.pos (digits2_pos mx) + (ex - Z.min ex ex').
Proof.
  unfold shl_align. destruct (ex' - ex) as [|d|d] eqn:E; cbn [fst snd].
  - replace (Z.min ex ex') with ex by lia. rewrite Z.sub_diag. cbn. lia.
  - replace (Z.min ex ex') with ex by lia. rewrite Z.sub_diag. cbn. lia.
  - replace (Z.min ex ex') with ex' by lia.
    replace (ex - ex') with (Z.pos d) by lia.
    pose proof (iter_xO_spec mx d) as [H1 H2]. auto.
Qed.

(** A difference of two numbers that are not below zero is at most the
    first. *)
Lemma SFsub_at_most mo eo mc ec :
  canonical mo eo -> canonical mc ec ->
  scaled (Z.pos mc) ec < scaled (Z.pos mo) eo ->
  at_most (SFsub prec emax (S754_finite false mo eo) (S754_finite false mc ec))
    mo eo.
Proof.
  intros Ho Hc Hlt. cbn [SFsub cond_Zopp].
  pose proof (canonical_bounds _ _ Ho) as (Heo & _).
  pose proof (canonical_bounds _ _ Hc) as (Hec & _).
  set (ez := Z.min eo ec).
  pose proof (shl_align_spec mo eo ez) as (_ & Hmo & _).
  pose proof (shl_align_spec mc ec ez) as (_ & Hmc & _).
  replace (Z.min eo ez) with ez in Hmo by lia.
  replace (Z.min ec ez) with ez in Hmc by lia.
  assert (Hso : scaled (Z.pos (shl_align mo eo ez).1) ez = scaled (Z.pos mo) eo).
  { rewrite Hmo, <- scaled_shift by lia. f_equal. lia. }
  assert (Hsc : scaled (Z.pos (shl_align mc ec ez).1) ez = scaled (Z.pos mc) ec).
  { rewrite Hmc, <- scaled_shift by lia. f_equal. lia. }
  assert (Hdiff : 0 < Z.pos (shl_align mo eo ez).1 - Z.pos (shl_align mc ec ez).1).
  { rewrite <- Hso, <- Hsc in Hlt. apply scaled_lt in Hlt; lia. }
  assert (Hval : scaled (Z.pos (shl_align mo eo ez).1
                         - Z.pos (shl_align mc ec ez).1) ez
                 <= scaled (Z.pos mo) eo).
  { rewrite <- Hso. apply scaled_le; lia. }
  destruct (Z.pos (shl_align mo eo ez).1 - Z.pos (shl_align mc ec ez).1)
    as [|dp|dp]; try lia.
  cbn [binary_normalize]. unfold binary_round.
  set (f := fexp prec emax (Z.pos (digits2_pos dp) + ez)).
  pose proof (shl_align_spec dp ez f) as (He & Hm & Hd).
  destruct (shl_align dp ez f) as [mz ez'] eqn:E. cbn [fst snd] in He, Hm, Hd.
  assert (Hf : -1074 <= f) by (subst f; unfold fexp, SpecFloat.emin, prec, emax; lia).
  apply binary_round_aux_le; [lia|lia| |exact Ho| |congruence].
  - cbn [Zdigits2]. rewrite Hd. rewrite He.
    replace (Z.pos (digits2_pos dp) + (ez - Z.min ez f) + Z.min ez f)
      with (Z.pos (digits2_pos dp) + ez) by lia.
    fold f. lia.
  - rewrite Hm, He.
    replace ez with (Z.min ez f + (ez - Z.min ez f)) in Hval at 1 by lia.
    rewrite scaled_shift in Hval by lia. exact Hval.
Qed.

(** *** The discount *)

Lemma at_most_refl m e : at_most (S754_finite false m e) m e.
Proof. right. exists m, e. split; [reflexivity|lia]. Qed.

Lemma at_most_zero m e : at_most (S754_zero false) m e.
Proof. now left. Qed.

(** A float that is not below zero is a zero, a positive number or the
    positive infinity. *)
Lemma nonneg_cases x :
  (0 <=? x)%float = true ->
  (exists s, Prim2SF x = S754_zero s) \/
  (exists m e, Prim2SF x = S754_finite false m e /\ canonical m e) \/
  Prim2SF x = S754_infinity false.
Proof.
  rewrite FloatAxioms.leb_spec. change (Prim2SF 0) with (S754_zero false).
  pose proof (Prim2SF_valid x) as Hv.
  destruct (Prim2SF x) as [s|[]| |[] m e]; cbn; intros H;
    try discriminate H; eauto.
  right. left. exists m, e. split; [reflexivity|]. exact (valid_canonical _ _ _ Hv).
Qed.

Lemma at_most_canonical x mb eb :
  at_most (Prim2SF x) mb eb ->
  Prim2SF x = S754_zero false \/
  exists m e,
    Prim2SF x = S754_finite false m e /\ canonical m e /\
    scaled (Z.pos m) e <= scaled (Z.pos mb) eb.
Proof.
  intros [H|(m & e & H & Hle)]; [auto|]. right. exists m, e.
  split_and!; [exact H| |exact Hle].
  pose proof (Prim2SF_valid x) as Hv. rewrite H in Hv.
  exact (valid_canonical _ _ _ Hv).
Qed.

Lemma canonical_100 : canonical 7036874417766400 (-46).
Proof. exact (valid_canonical _ _ _ (Prim2SF_valid 100)). Qed.

(** Rounding to two places keeps a number between 0 and 100 there. *)
Lemma round2_at_most y :
  at_most (Prim2SF y) 7036874417766400 (-46) ->
  (0 <=? round2 y)%float = true /\ (round2 y <=? 100)%float = true.
Proof.
  intros [H|(m & e & H & Hc & Hle)]%at_most_canonical.
  - unfold round2. rewrite H. rewrite !FloatAxioms.leb_spec, H. split; reflexivity.
  - assert (H100 : (y <=? 100)%float = true).
    { rewrite FloatAxioms.leb_spec, H.
      change (Prim2SF 100) with (S754_finite false 7036874417766400 (-46)).
      now apply SFleb_canonical; [|apply canonical_100|]. }
    assert (H0 : (0 <? y)%float = true).
    { rewrite FloatAxioms.ltb_spec, H. reflexivity. }
    destruct (y <? 100)%float eqn:Elt; [now apply round2_bounds|].
    assert (Hy : y = 100%float).
    { apply Prim2SF_inj.
      change (Prim2SF 100) with (S754_finite false 7036874417766400 (-46)).
      apply SFcompare_Eq_finite.
      change (S754_finite false 7036874417766400 (-46)) with (Prim2SF 100).
      apply not_ltb_compare.
      - exact (leb_number_l _ _ H100).
      - exact (leb_number_r _ _ H100).
      - exact Elt.
      - destruct (100 <? y)%float eqn:E; [|reflexivity].
        apply ltb_leb_incompatible in E. congruence. }
    rewrite Hy. split; vm_compute; reflexivity.
Qed.

Lemma discount_at_most c o :
  (0 <=? c)%float = true -> (0 <=? o)%float = true ->
  (o <? infinity)%float = true ->
  (o =? 0)%float = false -> (o <=? c)%float = false ->
  at_most (Prim2SF ((o - c) / o * 100)%float) 7036874417766400 (-46).
Proof.
  intros Hc Ho Hfin Hz Hoc.
  rewrite FloatAxioms.ltb_spec in Hfin. rewrite FloatAxioms.eqb_spec in Hz.
  rewrite FloatAxioms.leb_spec in Hoc.
  change (Prim2SF 0) with (S754_zero false) in Hz.
  change (Prim2SF infinity) with (S754_infinity false) in Hfin.
  destruct (nonneg_cases o Ho) as [[s Eo]|[(mo & eo & Eo & Hco)|Eo]];
    rewrite Eo in Hfin, Hz, Hoc;
    [destruct s; discriminate Hz| |discriminate Hfin].
  (* the difference *)
  assert (Hx : at_most (Prim2SF (o - c)) mo eo).
  { rewrite sub_spec, Eo. unfold SF64sub.
    destruct (nonneg_cases c Hc) as [[s Ec]|[(mc & ec & Ec & Hcc)|Ec]];
      rewrite Ec in Hoc |- *.
    - apply at_most_refl.
    - apply SFsub_at_most; [exact Hco|exact Hcc|].
      destruct (Z.lt_ge_cases (scaled (Z.pos mc) ec) (scaled (Z.pos mo) eo))
        as [|Hge]; [assumption|].
      apply SFleb_canonical in Hge; [|assumption..].
      congruence.
    - discriminate Hoc. }
  (* the quotient *)
  assert (Hq : at_most (Prim2SF ((o - c) / o)) 4503599627370496 (-52)).
  { rewrite div_spec, Eo. unfold SF64div.
    destruct (at_most_canonical _ _ _ Hx) as [->|(mx & ex & -> & Hcx & Hle)].
    - apply at_most_zero.
    - now apply SFdiv_at_most. }
  (* the percentage *)
  rewrite mul_spec. unfold SF64mul.
  change (Prim2SF 100) with (S754_finite false 7036874417766400 (-46)).
  destruct (at_most_canonical _ _ _ Hq) as [->|(mq & eq & -> & Hcq & Hle)].
  - apply at_most_zero.
  - apply SFmul_at_most; [exact Hcq|exact canonical_100|lia|exact Hle].
Qed.

Lemma calculate_discount_bounds c o :
  (0 <=? c)%float = true -> (0 <=? o)%float = true ->
  (o <? infinity)%float = true ->
  (0 <=? calculate_discount c o)%float = true /\
  (calculate_discount c o <=? 100)%float = true.
Proof.
  intros Hc Ho Hfin. unfold calculate_discount.
  destruct (o =? 0)%float eqn:Ez; [split; reflexivity|].
  destruct (o <=? c)%float eqn:Eoc; [split; reflexivity|].
  cbn [orb]. apply round2_at_most. now apply discount_at_most.
Qed.

Lemma calculate_discount_infinite c :
  (c <? infinity)%float = true ->
  Prim2SF (calculate_discount c infinity) = S754_nan.
Proof.
  intros Hc. unfold calculate_discount.
  replace (infinity =? 0)%float with false by reflexivity.
  assert (Hle : (infinity <=? c)%float = false) by now apply ltb_leb_incompatible.
  rewrite Hle. cbn [orb].
  assert (Hnan : Prim2SF ((infinity - c) / infinity * 100) = S754_nan).
  { rewrite mul_spec, div_spec, sub_spec. rewrite FloatAxioms.ltb_spec in Hc.
    change (Prim2SF infinity) with (S754_infinity false) in *.
    destruct (Prim2SF c) as [s|[]| |s m e]; try discriminate Hc; reflexivity. }
  unfold round2. now rewrite Hnan.
Qed.

(** X20. For prices that are not below zero and an original price that is
    not infinite, the discount is a number from 0 to 100; it is 0.0 when the
    original price is zero or not above the current price; with an infinite
    original price and a smaller current price it is NaN;
    [calculate_discount(750, 1000)] is 25.0. *)
Theorem calculate_discount_range :
  (forall c o,
     (0 <=? c)%float = true -> (0 <=? o)%float = true ->
     (o <? infinity)%float = true ->
     (0 <=? calculate_discount c o)%float = true /\
     (calculate_discount c o <=? 100)%float = true) /\
  (forall c o,
     (o =? 0)%float = true \/ (o <=? c)%float = true ->
     calculate_discount c o = 0%float) /\
  (forall c,
     (c <? infinity)%float = true ->
     Prim2SF (calculate_discount c infinity) = S754_nan) /\
  calculate_discount 750 1000 = 25%float.
Proof.
  split_and!.
  - exact calculate_discount_bounds.
  - intros c o H. unfold calculate_discount.
    destruct H as [-> | ->]; [reflexivity|]. now rewrite orb_true_r.
  - exact calculate_discount_infinite.
  - vm_compute. reflexivity.
Qed.

(** ** Edge cases and bounds *)

(** *** Two points *)

Lemma digits_value_point acc s :
  "."%char ∈ s -> digits_value acc s = None.
Proof.
  revert acc. induction s as [|c s IH]; intros acc Hin; [now apply elem_of_nil in Hin|].
  cbn [digits_value]. destruct (is_digit c) eqn:E; [|reflexivity].
  apply IH. apply elem_of_cons in Hin as [<-|Hin]; [discriminate E|exact Hin].
Qed.

Lemma split_point_second s :
  (2 <= points s)%nat ->
  exists f, (split_point s).2 = Some f /\ "."%char ∈ f.
Proof.
  unfold points. induction s as [|c s IH]; cbn [List.filter split_point length];
    [lia|].
  destruct (bool_decide (c = "."%char)) eqn:E; cbn [length snd].
  - intros H. exists s. split; [reflexivity|].
    assert (Hne : List.filter (fun c => bool_decide (c = "."%char)) s <> [])
      by (destruct (List.filter _ s); [cbn in H; lia|discriminate]).
    destruct (List.filter _ s) as [|d l] eqn:Ef; [congruence|].
    assert (Hd : In d (List.filter (fun c => bool_decide (c = "."%char)) s))
      by (rewrite Ef; left; reflexivity).
    apply List.filter_In in Hd as [Hd Hb]. apply bool_decide_eq_true in Hb.
    subst d. now apply list_elem_of_In.
  - intros H. destruct (IH H) as (f & Hf & Hin).
    destruct (split_point s) as [i g]. cbn [snd] in *. eauto.
Qed.

Lemma of_str_two_points s : (2 <= points s)%nat -> of_str s = None.
Proof.
  intros (f & Hf & Hin)%split_point_second. unfold of_str.
  destruct (split_point s) as [i g]. cbn [snd] in Hf. subst g.
  change (default [] (Some f)) with f.
  destruct (i ++ f) as [|d ds] eqn:E; [reflexivity|].
  rewrite digits_value_point; [reflexivity|].
  rewrite <- E. apply elem_of_app. now right.
Qed.

Lemma points_filter (f : ascii -> bool) s :
  (forall c, c = "."%char -> f c = true) ->
  points (List.filter f s) = points s.
Proof.
  intros Hf. unfold points. induction s as [|c s IH]; [reflexivity|].
  cbn [List.filter]. destruct (bool_decide (c = "."%char)) eqn:E.
  - apply bool_decide_eq_true in E. rewrite (Hf c E). cbn [List.filter].
    rewrite (bool_decide_eq_true_2 _ E). cbn [length]. now rewrite IH.
  - destruct (f c); [|exact IH]. cbn [List.filter]. rewrite E. exact IH.
Qed.

Lemma clean_price_two_points s :
  (2 <= points s)%nat -> clean_price s = 0%float.
Proof.
  intros H. rewrite clean_price_refines. unfold clean_price_spec.
  rewrite of_str_two_points; [reflexivity|].
  rewrite !points_filter; [exact H| |].
  - intros c ->. reflexivity.
  - intros c ->. reflexivity.
Qed.

(** X21. A price text with two points or more cleans to 0.0, so its
    container is rejected; a text with one point and a decimal comma is
    accepted with the comma dropped: "1.234,56 Dhs" is 1.23456. *)
Theorem two_points_rejected :
  (forall s, (2 <= points s)%nat -> clean_price s = 0%float) /\
  (forall c key name idx t,
     price_elem c = Some t -> (2 <= points t)%nat ->
     extract_product_data c key name idx = None) /\
  clean_price "1.234,56 Dhs" = 1.23456%float.
Proof.
  split_and!.
  - exact clean_price_two_points.
  - intros c key name idx t Ht Hp. apply extract_product_data_None. right.
    unfold cleaned_current. rewrite Ht. cbn [default].
    now rewrite clean_price_two_points.
  - vm_compute. reflexivity.
Qed.

(** *** The order of floats is transitive *)

Lemma finite_compare_spec m1 e1 m2 e2 :
  match (match e1 ?= e2 with
         | Eq => Pos.compare_cont Eq m1 m2
         | Lt => Lt
         | Gt => Gt
         end) with
  | Lt => e1 < e2 \/ (e1 = e2 /\ (m1 < m2)%positive)
  | Eq => e1 = e2 /\ m1 = m2
  | Gt => e2 < e1 \/ (e1 = e2 /\ (m2 < m1)%positive)
  end.
Proof.
  destruct (e1 ?= e2) eqn:E.
  - apply Z.compare_eq in E.
    change (Pos.compare_cont Eq m1 m2) with (m1 ?= m2)%positive.
    destruct (m1 ?= m2)%positive eqn:Ec.
    + apply Pos.compare_eq in Ec. auto.
    + rewrite Pos.compare_lt_iff in Ec. auto.
    + rewrite Pos.compare_gt_iff in Ec. auto.
  - rewrite Z.compare_lt_iff in E. auto.
  - rewrite Z.compare_gt_iff in E. auto.
Qed.

Lemma finite_compare_opp m1 e1 m2 e2 :
  match e1 ?= e2 with
  | Eq => CompOpp (Pos.compare_cont Eq m1 m2)
  | Lt => Gt
  | Gt => Lt
  end
  = CompOpp (match e1 ?= e2 with
             | Eq => Pos.compare_cont Eq m1 m2
             | Lt => Lt
             | Gt => Gt
             end).
Proof. destruct (e1 ?= e2); reflexivity. Qed.

Lemma SFleb_trans x y z :
  SFleb x y = true -> SFleb y z = true -> SFleb x z = true.
Proof.
  unfold SFleb.
  destruct x as [[]|[]| |[] mx ex], y as [[]|[]| |[] my ey],
           z as [[]|[]| |[] mz ez];
    cbn [SFcompare];
    try (intros; reflexivity);
    try (intros H; discriminate H);
    try (intros _ H; discriminate H).
  - rewrite !finite_compare_opp.
    pose proof (finite_compare_spec mx ex my ey) as H1.
    pose proof (finite_compare_spec my ey mz ez) as H2.
    pose proof (finite_compare_spec mx ex mz ez) as H3.
    destruct (match ex ?= ey with Eq => _ | Lt => Lt | Gt => Gt end),
             (match ey ?= ez with Eq => _ | Lt => Lt | Gt => Gt end),
             (match ex ?= ez with Eq => _ | Lt => Lt | Gt => Gt end);
      cbn [CompOpp]; intros Hxy Hyz;
      try reflexivity; try discriminate Hxy; try discriminate Hyz;
      exfalso; lia.
  - pose proof (finite_compare_spec mx ex my ey) as H1.
    pose proof (finite_compare_spec my ey mz ez) as H2.
    pose proof (finite_compare_spec mx ex mz ez) as H3.
    destruct (match ex ?= ey with Eq => _ | Lt => Lt | Gt => Gt end),
             (match ey ?= ez with Eq => _ | Lt => Lt | Gt => Gt end),
             (match ex ?= ez with Eq => _ | Lt => Lt | Gt => Gt end);
      cbn [CompOpp]; intros Hxy Hyz;
      try reflexivity; try discriminate Hxy; try discriminate Hyz;
      exfalso; lia.
Qed.

Lemma leb_trans x y z :
  (x <=? y)%float = true -> (y <=? z)%float = true -> (x <=? z)%float = true.
Proof. rewrite !FloatAxioms.leb_spec. apply SFleb_trans. Qed.

Lemma classify_price_tier_monotone_aux p1 p2 key :
  (p1 <=? p2)%float = true ->
  (tier_rank (classify_price_tier p1 key)
   <= tier_rank (classify_price_tier p2 key))%nat.
Proof.
  intros H. unfold classify_price_tier. destruct (ranges key) as [budget premium].
  destruct (p2 <=? budget)%float eqn:E2.
  - rewrite (leb_trans _ _ _ H E2). cbn. lia.
  - destruct (p2 <=? premium)%float eqn:E3.
    + rewrite (leb_trans _ _ _ H E3).
      destruct (p1 <=? budget)%float; cbn; lia.
    + destruct (p1 <=? budget)%float; [cbn; lia|].
      destruct (p1 <=? premium)%float; cbn; lia.
Qed.

(** X22. The tier never goes down when the price goes up: for prices
    [p1 <= p2] of one category the tier of [p1] is at most the tier of
    [p2]. *)
Theorem classify_price_tier_monotone p1 p2 key :
  (p1 <=? p2)%float = true ->
  (tier_rank (classify_price_tier p1 key)
   <= tier_rank (classify_price_tier p2 key))%nat /\
  (classify_price_tier p2 key = Budget -> classify_price_tier p1 key = Budget) /\
  (classify_price_tier p1 key = Premium -> classify_price_tier p2 key = Premium).
Proof.
  intros H. pose proof (classify_price_tier_monotone_aux p1 p2 key H) as Hr.
  split; [exact Hr|].
  destruct (classify_price_tier p1 key), (classify_price_tier p2 key);
    cbn in Hr; split; intros E; try reflexivity; try discriminate E; lia.
Qed.

Lemma classify_price_tier_monotone_witness :
  (2999.99 <=? 3000.01)%float = true /\
  (tier_rank (classify_price_tier 2999.99 "ordinateurs-pc")
   <= tier_rank (classify_price_tier 3000.01 "ordinateurs-pc"))%nat.
Proof.
  assert (H : (2999.99 <=? 3000.01)%float = true) by reflexivity.
  split; [exact H|].
  exact (proj1 (classify_price_tier_monotone 2999.99 3000.01 "ordinateurs-pc" H)).
Defined.

(** *** The pages of a category *)

Section PageFacts.

Variable fetch : str -> Z -> fetched.

Lemma filter_split_length {A} (f : A -> bool) l :
  (length (List.filter f l) + length (List.filter (fun x => negb (f x)) l))%nat
  = length l.
Proof.
  induction l as [|x l IH]; [reflexivity|]. cbn [List.filter].
  destruct (f x); cbn [negb length]; lia.
Qed.

Lemma scrape_category_budget self key info self' :
  scrape_category fetch self key info = (self', Returns tt) ->
  (stats_pages_scraped (scraping_stats self') + errors (scraping_stats self')
   <= stats_pages_scraped (scraping_stats self) + errors (scraping_stats self)
      + Z.to_nat (pages info))%nat.
Proof.
  intros (page & Hp & _ & _ & ->)%scrape_category_form.
  cbn [scraping_stats store_category add_counts stats_pages_scraped errors].
  set (att := seqZ 1 _).
  pose proof (filter_split_length (failing fetch key) att) as Hl.
  change (fun x => negb (failing fetch key x)) with (loaded fetch key) in Hl.
  assert (Ha : (length att <= Z.to_nat (pages info))%nat).
  { subst att. rewrite length_seqZ. destruct (empty fetch key page); lia. }
  lia.
Qed.

(** X23. Over the category loop the page counter and the error counter
    together grow by at most the page counts of the categories, a category
    without page counting for one (its one error). *)
Theorem page_budget cats self :
  (stats_pages_scraped (scraping_stats (run_categories fetch cats self))
   + errors (scraping_stats (run_categories fetch cats self))
   <= stats_pages_scraped (scraping_stats self) + errors (scraping_stats self)
      + sum_list (map page_allowance cats))%nat.
Proof.
  revert self. induction cats as [|[key info] rest IH]; intros self.
  - cbn. lia.
  - cbn [map sum_list]. unfold page_allowance at 1. cbn [snd].
    destruct (run_categories_step fetch key info rest self)
      as [[Hp ->]|[Hp (self' & E & ->)]].
    + etrans; [apply IH|]. cbn. lia.
    + apply scrape_category_budget in E.
      etrans; [apply IH|]. cbn. lia.
Qed.

(** X24. When [scrape_category] returns, the records it appended are those
    of the pages it visited, in page order; the records of a page are what
    [process_products] returns for the containers of the page against the
    collection as it was before the category, so the numbering starts again
    at [len(self.products) + 1] on every page; a page that failed to load
    contributes nothing. *)
Theorem category_records_by_page self key info self' :
  scrape_category fetch self key info = (self', Returns tt) ->
  exists last_page,
    0 <= last_page <= pages info /\
    products self'
    = products self
      ++ flat_map (page_yield fetch self key (cat_name info)) (seqZ 1 last_page) /\
    (forall m product_containers,
       fetch key m = Containers product_containers ->
       page_yield fetch self key (cat_name info) m
       = process_products self product_containers key (cat_name info)) /\
    (forall m, fetch key m = FetchError ->
       page_yield fetch self key (cat_name info) m = []) /\
    (forall m,
       map product_id (page_yield fetch self key (cat_name info) m)
       = map product_id_of
           (seq (S (length (products self)))
              (length (page_yield fetch self key (cat_name info) m)))).
Proof.
  intros (page & Hp & _ & _ & ->)%scrape_category_form.
  exists (if empty fetch key page then page - 1 else page).
  split; [destruct (empty fetch key page); lia|].
  split_and!.
  - reflexivity.
  - intros m cs E. unfold page_yield. rewrite E.
    symmetry. apply process_products_records.
  - intros m E. unfold page_yield. now rewrite E.
  - intros m. unfold page_yield. destruct (fetch key m); [reflexivity|].
    apply page_records_ids.
Qed.

End PageFacts.

Lemma category_records_by_page_witness :
  exists last_page,
    0 <= last_page <= pages gaming_two_pages /\
    products
      (scrape_category end_of_results init "jeux-videos-consoles"
         gaming_two_pages).1
    = products init
      ++ flat_map (page_yield end_of_results init "jeux-videos-consoles"
                     (cat_name gaming_two_pages)) (seqZ 1 last_page).
Proof.
  destruct (category_records_by_page end_of_results init _ _ _ gaming_returns)
    as (last_page & Hl & Hp & _).
  exists last_page. split; assumption.
Defined.

(** ** The score of a record that is not on sale *)

(** *** Scores without discount *)

Lemma zero_cases d : (d =? 0)%float = true -> d = 0%float \/ d = (-0)%float.
Proof.
  rewrite FloatAxioms.eqb_spec. change (Prim2SF 0) with (S754_zero false).
  intros H. unfold SFeqb in H.
  destruct (SFcompare (Prim2SF d) (S754_zero false)) as [[]|] eqn:E;
    try discriminate H.
  apply SFcompare_Eq_zero in E as [[] E]; [right|left]; apply Prim2SF_inj;
    rewrite E; reflexivity.
Qed.

Lemma calculate_value_score_zero c o d :
  (d =? 0)%float = true -> calculate_value_score c o d = plain_score c.
Proof.
  intros H. unfold calculate_value_score, plain_score, price_bonus.
  destruct (zero_cases d H) as [-> | ->];
    destruct (c <? 1000)%float, (c <? 3000)%float, (c <? 5000)%float;
    vm_compute; reflexivity.
Qed.

Lemma calculate_value_score_nan c o d :
  Prim2SF d = S754_nan -> calculate_value_score c o d = 100%float.
Proof.
  intros H. assert (d = nan) as -> by (apply Prim2SF_inj; rewrite H; reflexivity).
  unfold calculate_value_score, price_bonus.
  destruct (c <? 1000)%float, (c <? 3000)%float, (c <? 5000)%float;
    vm_compute; reflexivity.
Qed.

(** X25. A record that is not on sale has the score of its price step: 70
    below 1000, 60 below 3000, 50 below 5000, else 40.  The one exception is
    a record whose original price is infinite (a price text too long for a
    float): its discount is NaN and its score is 100. *)
Theorem score_without_sale c key name idx r :
  extract_product_data c key name idx = Some r ->
  is_on_sale r = false ->
  value_score r = plain_score (current_price r) \/
  (Prim2SF (cleaned_original c) = S754_infinity false /\
   Prim2SF (discount_percent r) = S754_nan /\
   value_score r = 100%float).
Proof.
  intros (_ & Hz & ->)%extract_product_data_Some.
  cbn [is_on_sale value_score current_price discount_percent].
  intros Hsale.
  pose proof (cleaned_current_nonneg c) as Hc.
  pose proof (cleaned_original_nonneg c) as Ho.
  destruct (cleaned_original c <? infinity)%float eqn:Efin.
  - left. apply calculate_value_score_zero.
    destruct (calculate_discount_bounds _ _ Hc Ho Efin) as [H0 _].
    exact (leb_not_ltb_eqb _ _ H0 Hsale).
  - destruct (nonneg_cases _ Ho) as [[s E]|[(m & e & E & _)|E]].
    + rewrite FloatAxioms.ltb_spec, E in Efin. destruct s; discriminate Efin.
    + rewrite FloatAxioms.ltb_spec, E in Efin. discriminate Efin.
    + assert (Hinf : cleaned_original c = infinity)
        by (apply Prim2SF_inj; rewrite E; reflexivity).
      rewrite Hinf in *.
      destruct (cleaned_current c <? infinity)%float eqn:Ecur.
      * right. pose proof (calculate_discount_infinite _ Ecur) as Hnan.
        split_and!; [reflexivity|exact Hnan|].
        now apply calculate_value_score_nan.
      * left. apply calculate_value_score_zero.
        unfold calculate_discount.
        assert (Hle : (infinity <=? cleaned_current c)%float = true).
        { rewrite leb_ltb_flip, Ecur; [reflexivity| |].
          - unfold is_number. vm_compute. discriminate.
          - exact (leb_number_r _ _ Hc). }
        rewrite Hle. rewrite orb_true_r. reflexivity.
Qed.

Lemma score_without_sale_witness :
  value_score marked_up_record = plain_score (current_price marked_up_record) \/
  (Prim2SF (cleaned_original marked_up) = S754_infinity false /\
   Prim2SF (discount_percent marked_up_record) = S754_nan /\
   value_score marked_up_record = 100%float).
Proof.
  exact (score_without_sale marked_up _ _ _ _ marked_up_accepted eq_refl).
Defined.
